(** * Verification of the extraction / merge pipeline of tiangong-ai-langgraph-server

    Shallow embedding of the TypeScript sources:
    - [SortAgent]: the LangGraph state machine of src/src/sort_agent.ts
      (checkRelevance, boundaryExtract, evaluatePolicyRecommendations,
      decideRelevance, decideRegenerate) together with the channel reducers
      of its [StateAnnotation];
    - [Merge]: mergeBoundaryData / mergeInBatches of src/src/multi_agents/mfa.ts;
    - [Extract]: extractArticleInfo / batchExtractArticles of
      src/src/multi_agents/extract.ts;
    - [SortWorkflow]: checkArticleRelevance and the admission loop of
      runSortWorkflow (second module in src/src/multi_agents/mfa.ts);
    - [MergeAgent]: addSpatialTags / formatOutput of src/unnamed/part_000.

    Every call to an external service (LLM chain, remote graph) is an
    argument of the model: the outcome the service produced. *)

From Stdlib Require Import String Ascii.
From Stdlib Require Import List Arith NArith QArith Lia Bool Relations.
Import ListNotations.
Open Scope nat_scope.
Open Scope string_scope.

(** Outcome of one awaited call to a model bound with [bindTools]:
    the promise rejects, or it resolves with an [AIMessage] whose
    [tool_calls] is empty, or with a first tool call carrying [args]. *)
Inductive Outcome (A : Type) : Type :=
| Throws
| NoToolCall
| ToolCall (args : A).
Arguments Throws {A}.
Arguments NoToolCall {A}.
Arguments ToolCall {A} args.

(** The properties a fresh object literal [{}] inherits from
    [Object.prototype]: [k in obj] is true and [obj[k]] is truthy for them
    without their being own properties. *)
Definition object_prototype_keys : list string :=
  ["constructor"; "__defineGetter__"; "__defineSetter__"; "hasOwnProperty";
   "__lookupGetter__"; "__lookupSetter__"; "isPrototypeOf"; "propertyIsEnumerable";
   "toString"; "valueOf"; "__proto__"; "toLocaleString"].

Module SortAgent.

(** [BoundaryItem] zod schema of sort_agent.ts. *)
Record BoundaryItem := mkBoundaryItem {
  source : string;
  SpatialScope : string;
  timeRange : string;
  policyRecommendations : list string
}.

(** The evaluation result object ([PolicyEvaluationResult]). *)
Record EvaluationResult := mkEval {
  isComplete : bool;
  score : Q;
  missingAspects : list string;
  improvementSuggestions : list string
}.

(** The channels of [StateAnnotation] the control flow depends on
    ([messages], [query], [content] are not read by any decision). *)
Record State := mkState {
  isRelevant : bool;
  boundaryItem : option BoundaryItem;
  cycleCount : nat;
  evaluationResult : option EvaluationResult;
  feedbackSuggestions : list string;
  rawContent : string;
  sourceInfo : string
}.

(** Defaults of the annotation: [isRelevant = false], [boundaryItem = null],
    [cycleCount = 0], [evaluationResult = null], [feedbackSuggestions = []],
    [rawContent = ''], [sourceInfo = 'Unknown Source']. *)
Definition initial_state : State :=
  mkState false None 0 None [] "" "Unknown Source".

(** A node's return value [Partial<State>]: [None] = key absent. *)
Record Update := mkUpdate {
  u_isRelevant : option bool;
  u_boundaryItem : option (option BoundaryItem);
  u_cycleCount : option nat;
  u_evaluationResult : option (option EvaluationResult);
  u_feedbackSuggestions : option (list string);
  u_rawContent : option string;
  u_sourceInfo : option string
}.

Definition empty_update : Update :=
  mkUpdate None None None None None None None.

(** Reducer [(_, y) => y]. *)
Definition last_value {A} (x : A) (u : option A) : A :=
  match u with Some y => y | None => x end.

(** Reducer of [cycleCount]: [(x, _) => x + 1], whatever value is sent. *)
Definition cycleCount_reducer (x : nat) (u : option nat) : nat :=
  match u with Some _ => x + 1 | None => x end.

(** LangGraph applies each key present in the update through its reducer. *)
Definition apply_update (s : State) (u : Update) : State :=
  mkState (last_value (isRelevant s) (u_isRelevant u))
          (last_value (boundaryItem s) (u_boundaryItem u))
          (cycleCount_reducer (cycleCount s) (u_cycleCount u))
          (last_value (evaluationResult s) (u_evaluationResult u))
          (last_value (feedbackSuggestions s) (u_feedbackSuggestions u))
          (last_value (rawContent s) (u_rawContent u))
          (last_value (sourceInfo s) (u_sourceInfo u)).

(** Arguments of the [judge_relevance] tool call; [confidence = None]
    stands for a missing number, on which [confidence.toFixed(2)] throws. *)
Record RelevanceArgs := mkRel {
  ra_isRelevant : bool;
  ra_confidence : option Q
}.

(** [checkRelevance]: the try block sets [isRelevant] from the first tool
    call (default [false]); the catch block returns [isRelevant: false].
    [sourceInfo] and [rawContent] come from the two regex matches on the
    content, given here as [src] and [actual]. *)
Definition checkRelevance (src actual : string) (o : Outcome RelevanceArgs) : Update :=
  match o with
  | Throws => {| u_isRelevant := Some false; u_boundaryItem := None;
                 u_cycleCount := None; u_evaluationResult := None;
                 u_feedbackSuggestions := None; u_rawContent := None;
                 u_sourceInfo := None |}
  | NoToolCall => {| u_isRelevant := Some false; u_boundaryItem := None;
                     u_cycleCount := None; u_evaluationResult := None;
                     u_feedbackSuggestions := None; u_rawContent := Some actual;
                     u_sourceInfo := Some src |}
  | ToolCall a =>
      match ra_confidence a with
      | None => (* toFixed on undefined throws: catch branch *)
          {| u_isRelevant := Some false; u_boundaryItem := None;
             u_cycleCount := None; u_evaluationResult := None;
             u_feedbackSuggestions := None; u_rawContent := None;
             u_sourceInfo := None |}
      | Some _ =>
          {| u_isRelevant := Some (ra_isRelevant a); u_boundaryItem := None;
             u_cycleCount := None; u_evaluationResult := None;
             u_feedbackSuggestions := None; u_rawContent := Some actual;
             u_sourceInfo := Some src |}
      end
  end.


















Definition eval_default_missing : EvaluationResult :=
  mkEval false 0%Q ["No policy recommendations found"]
         ["Extract policy recommendations from the text"].

(** Fail-open verdicts of the two fallback paths. *)
Definition eval_default_failed : EvaluationResult :=
  mkEval true (1 # 2)%Q ["Evaluation failed"] [].
Definition eval_default_error : EvaluationResult :=
  mkEval true (1 # 2)%Q ["Evaluation error"] [].

Definition only_evaluation (r : EvaluationResult) : Update :=
  {| u_isRelevant := None; u_boundaryItem := None;
     u_cycleCount := None; u_evaluationResult := Some (Some r);
     u_feedbackSuggestions := None; u_rawContent := None;
     u_sourceInfo := None |}.

(** Whether [evaluatePolicyRecommendations] calls the model at all:
    [boundaryItem] present with a non-empty recommendation list. *)
Definition has_recommendations (s : State) : bool :=
  match boundaryItem s with
  | Some b => match policyRecommendations b with [] => false | _ => true end
  | None => false
  end.

(** [evaluatePolicyRecommendations]. *)
Definition evaluatePolicyRecommendations (s : State) (o : Outcome EvaluationResult) : Update :=
  if negb (has_recommendations s) then only_evaluation eval_default_missing
  else
    match o with
    | ToolCall r =>
        {| u_isRelevant := None; u_boundaryItem := None;
           u_cycleCount := None; u_evaluationResult := Some (Some r);
           u_feedbackSuggestions := Some (improvementSuggestions r);
           u_rawContent := None; u_sourceInfo := None |}
    | NoToolCall => only_evaluation eval_default_failed
    | Throws => only_evaluation eval_default_error
    end.

Inductive Decision := Extract_ | End_ | Regenerate_.

(** [decideRelevance]. *)
Definition decideRelevance (s : State) : Decision :=
  if isRelevant s then Extract_ else End_.

(** [decideRegenerate]: [None] when [evaluationResult] is [null] (reading
    [isComplete] of null throws). *)
Definition decideRegenerate (s : State) : option Decision :=
  match evaluationResult s with
  | None => None
  | Some r =>
      if isComplete r || Nat.leb 2 (cycleCount s) then Some End_ else Some Regenerate_
  end.









End SortAgent.

Module Merge.
Section WithData.

(** A boundary-data object ([any] in mfa.ts). *)
Variable A : Type.

(** The [content] of the last message of the merge agent's reply:
    a string, already run through [JSON.parse] (an array, another JSON
    value, or text on which [JSON.parse] throws), or a non-string. *)
Inductive Parsed := PArray (xs : list A) | PValue (x : A) | PInvalid.
Inductive MsgContent := CString (p : Parsed) | CNonString.

(** Outcome of [client.threads.create()] followed by
    [mergeAgentGraph.invoke({ messages }, mergeConfig)] (with its own
    [maxRetries]): the promise rejects, or it resolves with [messages]. *)
Inductive MergeReply := MRejects | MResolves (messages : list MsgContent).

(** [array.slice(i, j)]. *)
Definition slice (l : list A) (i j : nat) : list A := firstn (j - i) (skipn i l).

(** [for (let i = 0; i < n; i += size) batches.push(l.slice(i, i + size))],
    the loop running at most [fuel] times. *)
Fixpoint split_from (size : nat) (l : list A) (fuel i : nat) : list (list A) :=
  match fuel with
  | O => []
  | S f =>
      if Nat.ltb i (length l) then slice l i (i + size) :: split_from size l f (i + size)
      else []
  end.

Definition split_batches (size : nat) (l : list A) : list (list A) :=
  split_from size l (length l) 0.

(** [const batchSize = 10] in [mergeInBatches]. *)
Definition batchSize : nat := 10.

(** The body of the batch loop of [mergeInBatches]: what is pushed onto
    [mergedBatches] for one batch. The catch branch pushes the batch itself. *)
Definition merge_batch (reply : MergeReply) (batch : list A) : list A :=
  match reply with
  | MRejects => batch
  | MResolves [] => []
  | MResolves (m :: ms) =>
      match last (m :: ms) m with
      | CString (PArray xs) => xs
      | CString (PValue x) => [x]
      | CString PInvalid => batch
      | CNonString => []
      end
  end.

(** The batch loop; [call i] is the reply for batch number [i]. *)
Fixpoint merge_batches (call : nat -> MergeReply) (i : nat) (bs : list (list A)) : list A :=
  match bs with
  | [] => []
  | b :: bs' => merge_batch (call i) b ++ merge_batches call (S i) bs'
  end.

(** [mergeInBatches]: one assistant message holding
    [JSON.stringify(mergedBatches)]. *)
Definition mergeInBatches (call : nat -> MergeReply) (data : list A) : list MsgContent :=
  [CString (PArray (merge_batches call 0 (split_batches batchSize data)))].

(** [mergeBoundaryData]: batch mode above 15 items; otherwise one merge
    call ([single]) whose reply is returned as is, and on rejection one
    assistant message holding [JSON.stringify(boundaryData)]. The result
    is the [messages] list of the returned object. *)
Definition mergeBoundaryData (single : MergeReply) (call : nat -> MergeReply)
           (data : list A) : list MsgContent :=
  if Nat.ltb 15 (length data) then mergeInBatches call data
  else match single with
       | MRejects => [CString (PArray data)]
       | MResolves messages => messages
       end.

End WithData.
Arguments CString {A} p.
Arguments CNonString {A}.
Arguments PArray {A} xs.
Arguments PValue {A} x.
Arguments PInvalid {A}.
Arguments MRejects {A}.
Arguments MResolves {A} messages.
Arguments slice {A} l i j.
Arguments split_from {A} size l fuel i.
Arguments split_batches {A} size l.
Arguments merge_batch {A} reply batch.
Arguments merge_batches {A} call i bs.
Arguments mergeInBatches {A} call data.
Arguments mergeBoundaryData {A} single call data.
End Merge.

(** JavaScript promises as seen by an [await]: resolved or rejected. *)
Inductive Promise (A : Type) : Type :=
| Resolved (a : A)
| Rejected.
Arguments Resolved {A} a.
Arguments Rejected {A}.

(** [s.includes(sub)]. *)
Fixpoint includes (sub s : string) : bool :=
  String.prefix sub s ||
  match s with
  | EmptyString => false
  | String _ s' => includes sub s'
  end.

Module Extract.

Inductive SearchResult := SRString (s : string) | SRObject.

Record SubSection := mkSubSection {
  subsectionTitle : string;
  mainContent : string;
  subPolicyRecommendations : list string
}.

(** The [Article] interface of extract.ts ([None] = property absent). *)
Record Article := mkArticle {
  articleTitle : option string;
  doi : option string;
  abstract : option string;
  authors : option string;
  sourceTitle : option string;
  publicationYear : option nat;
  searchResults : option (list SearchResult);
  spatialScope : string;
  timeRange : string;
  subSections : list SubSection
}.

(** A field of the remote graph's output that the code inspects with
    [typeof]: a string, an object (with its [toString()]), or anything else. *)
Inductive JsField := JStr (s : string) | JObj (toString : string) | JOther.

Record ExtractedData := mkExtracted {
  x_spatialScope : JsField;
  x_timeRange : JsField;
  x_subSections : option (list SubSection)  (** [None]: not an array *)
}.

(** Outcome of [client.threads.create()] and [extractGraph.invoke(...)]:
    a rejection, or the resolved [result] ([None] when falsy), whose
    [output] array is given. *)
Inductive InvokeOutcome :=
| IRejects
| IResolves (result : option (list ExtractedData)).

Definition PROCESSING_BATCH_SIZE : nat := 5.
Definition MAX_RETRIES : nat := 3.

(** The object literal returned by the sentinel paths of
    [extractArticleInfo]: bibliographic fields copied, the rest absent. *)
Definition with_status (article : Article) (sc tr : string) (subs : list SubSection) : Article :=
  mkArticle (articleTitle article) (doi article) None (authors article)
            (sourceTitle article) (publicationYear article) None sc tr subs.

Definition field_or_default (f : JsField) : string :=
  match f with
  | JStr s => s
  | JObj t => t
  | JOther => "Not specified"
  end.

Definition default_subsection : SubSection :=
  mkSubSection "No Policy Sections Found"
    "The analysis could not identify specific policy sections in this document."
    ["No specific policy recommendations could be extracted from this document."].

(** [extractArticleInfo]: the whole body is one try/catch; the catch
    branch also returns an article. *)
Definition extractArticleInfo (article : Article) (o : InvokeOutcome) : Promise Article :=
  match o with
  | IRejects =>
      Resolved (with_status article "Error during processing" "Error during processing" [])
  | IResolves None =>
      Resolved (with_status article "No result returned" "No result returned" [])
  | IResolves (Some []) =>
      Resolved (with_status article "Error during processing" "Error during processing" [])
  | IResolves (Some (d :: _)) =>
      let subs := match x_subSections d with Some l => l | None => [] end in
      let subs := match subs with [] => [default_subsection] | _ => subs end in
      Resolved (with_status article (field_or_default (x_spatialScope d))
                            (field_or_default (x_timeRange d)) subs)
  end.

(** ["nal Server Error\n Please fix your mistakes."] *)
Definition server_error_marker : string :=
  "nal Server Error" ++ String (ascii_of_nat 10) " Please fix your mistakes.".

Definition has_internal_server_error (article : Article) : bool :=
  existsb (fun r => match r with SRString s => includes server_error_marker s
                                | SRObject => false end)
          (match searchResults article with Some l => l | None => [] end).

(** [{ ...article, spatialScope, timeRange, subSections }]. *)
Definition spread_with (article : Article) (sc tr : string) : Article :=
  mkArticle (articleTitle article) (doi article) (abstract article) (authors article)
            (sourceTitle article) (publicationYear article) (searchResults article) sc tr [].

(** The retry loop of [batchExtractArticles]:
    [while (!success && retries < MAX_RETRIES) { try { result = await
    extractArticleInfo(article); success = true } catch { retries++; ... } }].
    [attempt k] is the promise of the [k]-th call. Returns the final
    [result] and the number of calls made. *)
Fixpoint retry_loop (attempt : nat -> Promise Article) (article : Article)
         (fuel retries : nat) (result : option Article) : option Article * nat :=
  match fuel with
  | O => (result, 0)
  | S f =>
      if Nat.ltb retries MAX_RETRIES then
        match attempt retries with
        | Resolved r => (Some r, 1)
        | Rejected =>
            let retries' := S retries in
            let result' :=
              if Nat.leb MAX_RETRIES retries'
              then Some (spread_with article "Error during extraction" "Error during extraction")
              else result in
            let '(res, n) := retry_loop attempt article f retries' result' in
            (res, S n)
        end
      else (result, 0)
  end.

(** The per-article callback of [batchExtractArticles]; [outcome k] is the
    remote graph's outcome at the [k]-th call. Returns the article pushed
    to the results and the number of [extractArticleInfo] calls. *)
Definition process_article (outcome : nat -> InvokeOutcome) (article : Article) : Article * nat :=
  if has_internal_server_error article then
    (spread_with article "Skipped due to server error" "Skipped due to server error", 0)
  else
    let '(res, n) :=
      retry_loop (fun k => extractArticleInfo article (outcome k)) article
                 (S MAX_RETRIES) 0 None in
    (match res with
     | Some r => r
     | None => spread_with article "No result" "No result"
     end, n).

Fixpoint process_batch (outcomes : nat -> nat -> InvokeOutcome) (k : nat)
         (batch : list Article) : list (Article * nat) :=
  match batch with
  | [] => []
  | a :: rest => process_article (outcomes k) a :: process_batch outcomes (S k) rest
  end.

Fixpoint process_batches (outcomes : nat -> nat -> InvokeOutcome) (k : nat)
         (batches : list (list Article)) : list (Article * nat) :=
  match batches with
  | [] => []
  | b :: bs => process_batch outcomes k b ++ process_batches outcomes (k + length b) bs
  end.

(** [batchExtractArticles] with its instrumentation: [outcomes i k] is the
    outcome of the [k]-th call for article number [i]; the batches are
    [articles.slice(i, i + PROCESSING_BATCH_SIZE)] as in the merge loop. *)
Definition batch_runs (outcomes : nat -> nat -> InvokeOutcome) (articles : list Article)
  : list (Article * nat) :=
  process_batches outcomes 0 (Merge.split_batches PROCESSING_BATCH_SIZE articles).

Definition batchExtractArticles (outcomes : nat -> nat -> InvokeOutcome)
           (articles : list Article) : list Article :=
  map fst (batch_runs outcomes articles).

(** The text split of [extractArticleInfo]:
    [const midpoint = Math.ceil(fullText.length / 2);
     const text1 = fullText.substring(0, midpoint);
     const text2 = fullText.substring(midpoint);]
    (one [ascii] per UTF-16 code unit). *)
Definition split_halves (fullText : string) : string * string :=
  let midpoint := (String.length fullText + 1) / 2 in
  (substring 0 midpoint fullText,
   substring midpoint (String.length fullText - midpoint) fullText).

End Extract.

Module SortWorkflow.

(** The [content] of the last message of the sort agent's reply. *)
Inductive Content := MStr (s : string) | MNonStr.

(** Outcome of [client.threads.create()] and [sortAgentGraph.invoke]:
    a rejection, or the resolved state with its [isRelevant] field
    ([None] = undefined) and its [messages]. *)
Inductive SortReply :=
| SRejects
| SResolves (isRelevant : option bool) (messages : list Content).

(** [String.prototype.toLowerCase] on one character (ASCII letters). *)
Definition ascii_toLowerCase (c : ascii) : ascii :=
  let n := nat_of_ascii c in
  if Nat.leb 65 n && Nat.leb n 90 then ascii_of_nat (n + 32) else c.

Fixpoint toLowerCase (s : string) : string :=
  match s with
  | EmptyString => EmptyString
  | String c s' => String (ascii_toLowerCase c) (toLowerCase s')
  end.

(** [checkArticleRelevance]: the catch branch returns [false]. *)
Definition checkArticleRelevance (r : SortReply) : bool :=
  match r with
  | SRejects => false
  | SResolves (Some b) _ => b
  | SResolves None [] => false
  | SResolves None (m :: ms) =>
      let content :=
        match last (m :: ms) m with
        | MStr s => toLowerCase s
        | MNonStr => ""
        end in
      includes "Yes" content
  end.

(** The admission loop of [runSortWorkflow]:
    [while (index < articles.length || activePromises > 0) { if (index <
    articles.length && activePromises < maxConcurrent) { start
    checkArticleRelevance(articles[index]), whose .then/.catch callback
    runs activePromises--; activePromises++; index++ } else sleep 100ms }].
    [in_flight] counts the checkArticleRelevance calls not yet settled,
    [settled] those settled whose callback has not yet run. Starting a task
    is one step: no other task runs between the call and [activePromises++]. *)
Section AdmissionLoop.

Variable articles_length : nat.
Variable maxConcurrent : nat.

Record LoopState := mkLoop {
  index : nat;
  activePromises : nat;
  in_flight : nat;
  settled : nat;
  exited : bool
}.

Definition loop_init : LoopState := mkLoop 0 0 0 0 false.

Inductive loop_step : LoopState -> LoopState -> Prop :=
| start_task i a f d :
    i < articles_length -> a < maxConcurrent ->
    loop_step (mkLoop i a f d false) (mkLoop (S i) (S a) (S f) d false)
| sleep i a f d :
    ~ (i < articles_length /\ a < maxConcurrent) ->
    (i < articles_length \/ 0 < a) ->
    loop_step (mkLoop i a f d false) (mkLoop i a f d false)
| task_settles i a f d x :
    loop_step (mkLoop i a (S f) d x) (mkLoop i a f (S d) x)
| callback_runs i a f d x :
    loop_step (mkLoop i a f (S d) x) (mkLoop i (a - 1) f d x)
| loop_exits i a f d :
    ~ (i < articles_length \/ 0 < a) ->
    loop_step (mkLoop i a f d false) (mkLoop i a f d true).

Definition loop_reachable (s : LoopState) : Prop :=
  clos_refl_trans _ loop_step loop_init s.

End AdmissionLoop.
End SortWorkflow.

Module MergeAgent.

(** [BoundaryItem] of the merge agent (src/unnamed/part_000). *)
Record BoundaryItem := mkItem {
  source : string;
  SpatialScope : string;
  spatialTag : option string;
  timeRange : string;
  policyRecommendations : list string
}.

(** Arguments of the [tag_spatial_scope] tool call: [args.spatialTag]
    as returned by the model ([None] = undefined); tool-call arguments are
    not validated against the zod enum. *)
Definition TagArgs := option string.

Definition with_tag (item : BoundaryItem) (t : option string) : BoundaryItem :=
  mkItem (source item) (SpatialScope item) t (timeRange item) (policyRecommendations item).

(** [addSpatialTags]: each merged item with the outcome of its
    classification call; only items whose call returns a tool call are
    pushed to [taggedResults]; a throwing call is caught and the item
    skipped. [formatOutput] then emits [taggedResults] as one flat list. *)
Fixpoint addSpatialTags (items : list (BoundaryItem * Outcome TagArgs)) : list BoundaryItem :=
  match items with
  | [] => []
  | (item, o) :: rest =>
      match o with
      | ToolCall t => with_tag item t :: addSpatialTags rest
      | _ => addSpatialTags rest
      end
  end.

(** The JSON value [JSON.stringify] serializes: a boundary record (an
    object of its fields), an array, or an object with named members. *)
Local Set Warnings "-register-all".
Inductive Json :=
| JRecord (item : BoundaryItem)
| JArray (xs : list Json)
| JObject (members : list (string * Json)).

(** A message of the graph's output: its [role] and the JSON value whose
    [JSON.stringify(value, null, 2)] is its [content]. *)
Record OutputMessage := mkOutput { role : string; content : Json }.

(** [formatOutput]: the messages it adds to [messages], one assistant
    message holding [JSON.stringify(results, null, 2)] of [taggedResults]. *)
Definition formatOutput (taggedResults : list BoundaryItem) : list OutputMessage :=
  [mkOutput "assistant" (JArray (map JRecord taggedResults))].

End MergeAgent.

Module MfaSearch.
Import Merge.

(** [const JOURNALS] of mfa.ts. *)
Definition JOURNALS : list string :=
  ["JOURNAL OF INDUSTRIAL ECOLOGY";
   "RESOURCES CONSERVATION AND RECYCLING";
   "JOURNAL OF CLEANER PRODUCTION";
   "ENVIRONMENTAL SCIENCE & TECHNOLOGY";
   "BUILDING RESEARCH AND INFORMATION";
   "APPLIED ENERGY";
   "WASTE MANAGEMENT";
   "FRONTIERS IN EARTH SCIENCE";
   "SCIENTIFIC DATA";
   "ENVIRONMENTAL IMPACT ASSESSMENT REVIEW";
   "SUSTAINABILITY"].

(** [createJournalQueries]: [`${userQuery} in ${journal}`] per journal. *)
Definition createJournalQueries (userQuery : string) : list string :=
  map (fun journal => userQuery ++ " in " ++ journal) JOURNALS.

(** Outcome of the file writes of [searchExpandAndMerge]: whether
    [fs.mkdirSync] (when the output directory is missing) and the
    [fs.writeFileSync] of the raw boundary data succeed, and whether the
    [fs.writeFileSync] of the merged results succeeds when it is made.
    A failing write throws inside the [try]. *)
Record FsOutcome := mkFs { boundary_write_ok : bool; merged_write_ok : bool }.

Section WithData.
Variable A : Type.

(** A tool call of a search-agent message: its [name] and its [args]
    ([None] when falsy). *)
Record ToolCallRec := mkToolCall { tc_name : string; tc_args : option A }.

(** A message of the search agent's result: its [tool_calls] when it is
    an array, [None] otherwise. *)
Record SearchMsg := mkSearchMsg { sm_tool_calls : option (list ToolCallRec) }.

(** [extractBoundaryData]; the argument is [searchResult?.messages]
    ([None] when falsy). *)
Definition extractBoundaryData (messages : option (list SearchMsg)) : list A :=
  match messages with
  | None => []
  | Some msgs =>
      flat_map (fun msg =>
        match sm_tool_calls msg with
        | None => []
        | Some calls =>
            flat_map (fun call =>
              if String.eqb (tc_name call) "extract_boundary"
              then match tc_args call with Some args => [args] | None => [] end
              else []) calls
        end) msgs
  end.

(** The object returned by [performMfaSearch]: [success: false] (the
    search rejected), or [success: true] with [result], [None] when the
    resolved value is falsy, else its [messages] field. *)
Inductive SearchOutcome :=
| SearchFailed
| SearchOk (result : option (option (list SearchMsg))).

(** Step 3 of [searchExpandAndMerge]: [allBoundaryData]. *)
Definition collectBoundaryData (results : list SearchOutcome) : list A :=
  flat_map (fun r => match r with
                     | SearchOk (Some msgs) => extractBoundaryData msgs
                     | _ => []
                     end) results.

Definition successfulSearches (results : list SearchOutcome) : nat :=
  length (filter (fun r => match r with SearchOk _ => true | SearchFailed => false end)
                 results).

(** Step 5: [JSON.parse] of the last message's content when it is a
    string; [None] for [parsedResults = null]; [inl tt] when [JSON.parse]
    throws (caught by the outer catch). *)
Definition parse_merge_result (messages : list (MsgContent A)) : unit + option (Parsed A) :=
  match messages with
  | [] => inr None
  | m :: ms =>
      match last (m :: ms) m with
      | CString PInvalid => inl tt
      | CString p => inr (Some p)
      | CNonString => inr None
      end
  end.

(** The object returned by [searchExpandAndMerge]. *)
Inductive SEMResult :=
| SEMNoData (searchCount successful : nat)
| SEMMerged (searchCount successful boundaryItemsCount : nat)
            (mergedResults : list (MsgContent A)) (parsedResults : option (Parsed A))
| SEMError.

(** [if (parsedMergeResult)]: an array is truthy; [truthy] tells whether
    another JSON value is ([null], [false], [0] and [""] are not). *)
Definition parsed_truthy (truthy : A -> bool) (p : Parsed A) : bool :=
  match p with
  | PArray _ => true
  | PValue x => truthy x
  | PInvalid => false
  end.

(** [searchExpandAndMerge]: [search q] is the outcome of
    [performMfaSearch(q)] ([Promise.all] keeps the query order);
    [single] and [call] are the merge agent's replies as in
    [mergeBoundaryData]; [fs] the outcome of the file writes. The raw
    data is written before the no-data test; the merged results are
    written when [parsedMergeResult] is truthy. Any throw inside the [try]
    ends in the outer catch's [{originalQuery, error}] ([SEMError]). *)
Definition searchExpandAndMerge (truthy : A -> bool) (fs : FsOutcome)
           (search : string -> SearchOutcome)
           (single : MergeReply A) (call : nat -> MergeReply A)
           (userQuery : string) : SEMResult :=
  let journalQueries := createJournalQueries userQuery in
  let searchResults := map search journalQueries in
  let allBoundaryData := collectBoundaryData searchResults in
  if negb (boundary_write_ok fs) then SEMError
  else
  match allBoundaryData with
  | [] => SEMNoData (length searchResults) (successfulSearches searchResults)
  | _ =>
      let mergeResult := mergeBoundaryData single call allBoundaryData in
      match parse_merge_result mergeResult with
      | inl _ => SEMError
      | inr parsed =>
          let saved :=
            match parsed with
            | Some p => if parsed_truthy truthy p then merged_write_ok fs else true
            | None => true
            end in
          if saved then
            SEMMerged (length searchResults) (successfulSearches searchResults)
                      (length allBoundaryData) mergeResult parsed
          else SEMError
      end
  end.

End WithData.
Arguments mkToolCall {A} tc_name tc_args.
Arguments mkSearchMsg {A} sm_tool_calls.
Arguments extractBoundaryData {A} messages.
Arguments SearchFailed {A}.
Arguments SearchOk {A} result.
Arguments collectBoundaryData {A} results.
Arguments successfulSearches {A} results.
Arguments parse_merge_result {A} messages.
Arguments SEMNoData {A} searchCount successful.
Arguments SEMMerged {A} searchCount successful boundaryItemsCount mergedResults parsedResults.
Arguments SEMError {A}.
Arguments parsed_truthy {A} truthy p.
Arguments searchExpandAndMerge {A} truthy fs search single call userQuery.
End MfaSearch.

Module SortGrouping.
Import SortWorkflow.

(** The fields of mfa.ts's [Article] that the sort workflow reads or
    writes ([None] = property absent). *)
Record SortArticle := mkSortArticle {
  sa_title : option string;
  sa_abstract : option string;
  sa_isRelevant : option bool
}.

(** [{ ...article, isRelevant }] in the [.then] callback. *)
Definition annotate (article : SortArticle) (isRelevant : bool) : SortArticle :=
  mkSortArticle (sa_title article) (sa_abstract article) (Some isRelevant).

(** [allRelevanceResults]: each article with the reply its
    [checkArticleRelevance] call got; [checkArticleRelevance] never
    rejects, so every promise takes the [.then] branch. *)
Definition relevanceResults (checked : list (SortArticle * SortReply))
  : list (SortArticle * bool) :=
  map (fun p => let isRelevant := checkArticleRelevance (snd p) in
                (annotate (fst p) isRelevant, isRelevant)) checked.

(** [relevantArticles] and [irrelevantArticles] of [runSortWorkflow]. *)
Definition relevantArticles (results : list (SortArticle * bool)) : list SortArticle :=
  map fst (filter snd results).

Definition irrelevantArticles (results : list (SortArticle * bool)) : list SortArticle :=
  map fst (filter (fun r => negb (snd r)) results).

End SortGrouping.

Module JudgeAgent.
Import SortWorkflow.

(** JavaScript [WhiteSpace] and [LineTerminator] code units among the
    ones an [ascii] holds: TAB, LF, VT, FF, CR, SPACE and NBSP. *)
Definition is_js_space (c : ascii) : bool :=
  match nat_of_ascii c with
  | 9 | 10 | 11 | 12 | 13 | 32 | 160 => true
  | _ => false
  end.

Fixpoint trimStart (s : string) : string :=
  match s with
  | EmptyString => EmptyString
  | String c s' => if is_js_space c then trimStart s' else s
  end.

Fixpoint trimEnd (s : string) : string :=
  match s with
  | EmptyString => EmptyString
  | String c s' =>
      match trimEnd s' with
      | EmptyString => if is_js_space c then EmptyString else String c EmptyString
      | t => String c t
      end
  end.

(** [String.prototype.trim]. *)
Definition trim (s : string) : string := trimEnd (trimStart s).

(** The reply of the [judge_article_relevance] chain: a rejection, a
    first tool call with its [args.judgment] ([None] when it is not a
    string), or no tool call and the reply's text [content]. *)
Inductive JudgeReply :=
| JThrows
| JToolCall (judgment : option string)
| JText (content : string).

(** [judgeRelevance] (first graph of sort_agent.ts): [None] when the node
    throws (it has no try/catch; [judgment.toLowerCase()] throws on a
    non-string), else [isRelevant] and the judgment put in the
    [AIMessage]. *)
Definition judgeRelevance (reply : JudgeReply) : option (bool * string) :=
  let verdict judgment := Some (String.eqb (toLowerCase judgment) "yes", judgment) in
  match reply with
  | JThrows => None
  | JToolCall None => None
  | JToolCall (Some judgment) => verdict judgment
  | JText content =>
      verdict (if includes "yes" (toLowerCase (trim content)) then "Yes" else "No")
  end.

(** The state the remote sort graph resolves with when invoked by
    [checkArticleRelevance] with a fresh thread: [isRelevant] (defaults to
    [false], so it is always defined) and [messages], which starts empty
    and gets the judgment message. A throwing node rejects the invocation. *)
Definition judge_graph_reply (reply : JudgeReply) : SortReply :=
  match judgeRelevance reply with
  | None => SRejects
  | Some (isRelevant, judgment) => SResolves (Some isRelevant) [MStr judgment]
  end.

End JudgeAgent.

Module ExtractAgent.
Import Extract.

(** Arguments of the [extract_boundary] tool call: [spatialScope] and
    [timeRange], [None] when absent or not a string (then
    [BoundaryItem.parse] throws). *)
Definition BoundaryArgs : Type := option string * option string.

(** Arguments of the [extract_policy] tool call: [subSections], [None]
    when absent or not an array; an element is [None] when it does not
    match [SingleSubsection]. *)
Definition PolicyArgs : Type := option (list (option SubSection)).

(** [BoundaryItem.parse]: [None] when zod throws. *)
Definition parse_boundary (args : BoundaryArgs) : option (string * string) :=
  match args with
  | (Some spatialScope, Some timeRange) => Some (spatialScope, timeRange)
  | _ => None
  end.

(** [PolicyItem.parse]: one invalid element fails the whole parse. *)
Fixpoint parse_subsections (l : list (option SubSection)) : option (list SubSection) :=
  match l with
  | [] => Some []
  | None :: _ => None
  | Some x :: rest =>
      match parse_subsections rest with
      | Some xs => Some (x :: xs)
      | None => None
      end
  end.

Definition parse_policy (args : PolicyArgs) : option (list SubSection) :=
  match args with
  | Some l => parse_subsections l
  | None => None
  end.

(** The AI messages the nodes append ([JSON.stringify] of the validated
    item, or the fixed failure texts). *)
Inductive AgentMsg :=
| MsgBoundary (spatialScope timeRange : string)
| MsgBoundaryFailed
| MsgBoundaryError
| MsgPolicy (subSections : list SubSection)
| MsgPolicyFailed
| MsgPolicyError
| MsgMerged (spatialScope timeRange : string) (subSections : list SubSection).

(** The record built by the [merge] node. *)
Record MergedResult := mkMerged {
  m_spatialScope : string;
  m_timeRange : string;
  m_subSections : list SubSection
}.

(** The channels of the graph's [StateAnnotation] that the nodes write. *)
Record AgentState := mkAgentState {
  messages : list AgentMsg;
  boundaryItem : option (string * string);
  policyItem : list SubSection;
  output : list MergedResult
}.

(** [extractBoundary]: the model call and the parse are inside try/catch. *)
Definition extractBoundary (o : Outcome BoundaryArgs) : option (string * string) * AgentMsg :=
  match o with
  | Throws => (None, MsgBoundaryError)
  | NoToolCall => (None, MsgBoundaryFailed)
  | ToolCall args =>
      match parse_boundary args with
      | Some (sc, tr) => (Some (sc, tr), MsgBoundary sc tr)
      | None => (None, MsgBoundaryError)
      end
  end.

(** [extractPolicy]. *)
Definition extractPolicy (o : Outcome PolicyArgs) : list SubSection * AgentMsg :=
  match o with
  | Throws => ([], MsgPolicyError)
  | NoToolCall => ([], MsgPolicyFailed)
  | ToolCall args =>
      match parse_policy args with
      | Some subs => (subs, MsgPolicy subs)
      | None => ([], MsgPolicyError)
      end
  end.

(** [x || "Not specified"] on a string. *)
Definition or_not_specified (s : string) : string :=
  match s with EmptyString => "Not specified" | _ => s end.

(** [merge]. *)
Definition merge (boundaryItem : option (string * string)) (policyItem : list SubSection)
  : MergedResult :=
  match boundaryItem with
  | Some (sc, tr) => mkMerged (or_not_specified sc) (or_not_specified tr) policyItem
  | None => mkMerged "Not specified" "Not specified" policyItem
  end.

(** The graph [extractBoundary -> extractPolicy -> merge] from an input
    state; [messages] is reduced by concatenation, the other channels by
    replacement. *)
Definition run_extract_graph (s : AgentState) (ob : Outcome BoundaryArgs)
           (op : Outcome PolicyArgs) : AgentState :=
  let '(bi, m1) := extractBoundary ob in
  let '(pi, m2) := extractPolicy op in
  let merged := merge bi pi in
  mkAgentState
    (messages s ++ [m1; m2;
                    MsgMerged (m_spatialScope merged) (m_timeRange merged) (m_subSections merged)])
    bi pi [merged].

(** The state as [extractArticleInfo] sees it: its [output] records, each
    with string [spatialScope] and [timeRange] and an array [subSections]. *)
Definition to_extracted (m : MergedResult) : ExtractedData :=
  mkExtracted (JStr (m_spatialScope m)) (JStr (m_timeRange m)) (Some (m_subSections m)).

(** [extractGraph.invoke] from [extractArticleInfo] on a fresh thread. *)
Definition extract_graph_outcome (ob : Outcome BoundaryArgs) (op : Outcome PolicyArgs)
  : InvokeOutcome :=
  IResolves (Some (map to_extracted
                       (output (run_extract_graph (mkAgentState [] None [] []) ob op)))).

End ExtractAgent.

Module MergeBySource.
Import MergeAgent.
Local Open Scope list_scope.

Definition inherited_key (k : string) : bool := existsb (String.eqb k) object_prototype_keys.

(** [groupedBySource]: its own properties in creation order. *)
Definition Groups := list (string * list BoundaryItem).

Fixpoint lookup_group (k : string) (g : Groups) : option (list BoundaryItem) :=
  match g with
  | [] => None
  | (k', v) :: g' => if String.eqb k k' then Some v else lookup_group k g'
  end.

(** [groupedBySource[k].push(item)] on an own property. *)
Definition push_group (k : string) (item : BoundaryItem) (g : Groups) : Groups :=
  map (fun p => if String.eqb k (fst p) then (fst p, snd p ++ [item]) else p) g.

(** One iteration of the grouping loop: [if (!groupedBySource[item.source])
    groupedBySource[item.source] = []; groupedBySource[item.source].push(item)].
    On an inherited key the test sees a truthy value (a function, or
    [Object.prototype] for ["__proto__"]) and [.push] is not a function:
    [None], the node throws a TypeError. *)
Definition group_step (g : Groups) (item : BoundaryItem) : option Groups :=
  match lookup_group (source item) g with
  | Some _ => Some (push_group (source item) item g)
  | None => if inherited_key (source item) then None
            else Some (g ++ [(source item, [item])])
  end.

Fixpoint groupBySource (g : Groups) (items : list BoundaryItem) : option Groups :=
  match items with
  | [] => Some g
  | item :: rest =>
      match group_step g item with
      | Some g' => groupBySource g' rest
      | None => None
      end
  end.

Definition ascii_digit (c : ascii) : option N :=
  let n := nat_of_ascii c in
  if Nat.leb 48 n && Nat.leb n 57 then Some (N.of_nat (n - 48)) else None.

Fixpoint digits_value (s : string) (acc : N) : option N :=
  match s with
  | EmptyString => Some acc
  | String c s' =>
      match ascii_digit c with
      | Some d => digits_value s' (acc * 10 + d)%N
      | None => None
      end
  end.

(** An array index: the canonical decimal form of an integer below
    2^32 - 1. *)
Definition array_index (k : string) : option N :=
  match k with
  | EmptyString => None
  | String c rest =>
      if Ascii.eqb c "0"%char then
        match rest with EmptyString => Some 0%N | _ => None end
      else
        match digits_value k 0 with
        | Some n => if N.ltb n 4294967295 then Some n else None
        | None => None
        end
  end.

Definition index_of (p : string * list BoundaryItem) : N :=
  match array_index (fst p) with Some n => n | None => 0%N end.

Fixpoint insert_by_index (p : string * list BoundaryItem) (g : Groups) : Groups :=
  match g with
  | [] => [p]
  | q :: g' => if N.leb (index_of p) (index_of q) then p :: g
               else q :: insert_by_index p g'
  end.

(** The order of [for (const source in groupedBySource)]: array-index keys
    in ascending numeric order, then the other keys in creation order. *)
Definition for_in_order (g : Groups) : Groups :=
  fold_right insert_by_index []
    (filter (fun p => match array_index (fst p) with Some _ => true | None => false end) g)
  ++ filter (fun p => match array_index (fst p) with Some _ => false | None => true end) g.

(** The merge loop; [call source items] is the outcome of the
    [merge_boundary_items] chain for a group of two or more items (its
    arguments are pushed as they are, without validation). The node has
    no try/catch: a throwing call makes it throw ([None]). *)
Fixpoint merge_groups (call : string -> list BoundaryItem -> Outcome BoundaryItem)
         (gs : Groups) : option (list BoundaryItem) :=
  match gs with
  | [] => Some []
  | (src, items) :: rest =>
      let here :=
        match items with
        | [x] => Some [x]
        | _ => match call src items with
               | Throws => None
               | NoToolCall => Some []
               | ToolCall merged => Some [merged]
               end
        end in
      match here with
      | None => None
      | Some a =>
          match merge_groups call rest with
          | Some b => Some (a ++ b)
          | None => None
          end
      end
  end.

(** [mergeBySource]: its [mergedResults], or [None] when it throws. *)
Definition mergeBySource (call : string -> list BoundaryItem -> Outcome BoundaryItem)
           (filteredItems : list BoundaryItem) : option (list BoundaryItem) :=
  match groupBySource [] filteredItems with
  | Some g => merge_groups call (for_in_order g)
  | None => None
  end.

End MergeBySource.

Module BoundaryPipeline.
Import MergeAgent MergeBySource.
Local Open Scope list_scope.

(** Arguments of the [check_location_in_china] tool call, read through
    [args as any]: [isInChina] as a boolean and [confidence] as the number
    the model returned. *)
Record LocationArgs := mkLocation {
  isInChina : bool;
  confidence : Q
}.

(** [locationResult.isInChina && locationResult.confidence > 0.6]. *)
Definition keeps_location (a : LocationArgs) : bool :=
  isInChina a && negb (Qle_bool (confidence a) (6 # 10)).

(** [filterNonChineseLocations]: each boundary item with the outcome of its
    location call. An item is pushed when its reply's first tool call keeps
    it; an item whose reply has no tool call is dropped silently. The node
    has no try/catch: a throwing call makes it throw ([None]). *)
Fixpoint filterNonChineseLocations (items : list (BoundaryItem * Outcome LocationArgs))
  : option (list BoundaryItem) :=
  match items with
  | [] => Some []
  | (item, o) :: rest =>
      match o with
      | Throws => None
      | NoToolCall => filterNonChineseLocations rest
      | ToolCall a =>
          match filterNonChineseLocations rest with
          | Some f => Some (if keeps_location a then item :: f else f)
          | None => None
          end
      end
  end.

(** The graph from [filterNonChineseLocations] to [addSpatialTags]
    ([filterNonChineseLocations -> mergeBySource -> addSpatialTags]):
    [loc] are the location-call outcomes of the boundary items in order,
    [call] the merge chain and [tags] the classification outcomes of the
    merged items in order; [None] when a node throws. *)
Definition boundary_pipeline (loc : list (Outcome LocationArgs))
           (call : string -> list BoundaryItem -> Outcome BoundaryItem)
           (tags : list (Outcome TagArgs)) (boundaryItems : list BoundaryItem)
  : option (list BoundaryItem) :=
  match filterNonChineseLocations (combine boundaryItems loc) with
  | Some filteredItems =>
      match mergeBySource call filteredItems with
      | Some mergedResults => Some (addSpatialTags (combine mergedResults tags))
      | None => None
      end
  | None => None
  end.

End BoundaryPipeline.

(* ================================================================== *)
(** * Properties *)

Module SortAgentFacts.
Import SortAgent.
































(** C2. Relevance fails closed: a rejected call, or a reply without tool
    call, leaves [isRelevant = false] and the graph goes to [__end__]
    without extraction, whatever the state. Evaluation fails open: when
    the evaluation model is called (the item has recommendations) and the
    call rejects or yields no tool call, the verdict is [isComplete = true]
    with [score = 0.5] and [decideRegenerate] stops. *)
Theorem relevance_fail_closed_evaluation_fail_open :
  (forall s src actual o, (o = Throws \/ o = NoToolCall) ->
     isRelevant (apply_update s (checkRelevance src actual o)) = false /\
     decideRelevance (apply_update s (checkRelevance src actual o)) = End_) /\
  (forall s o, has_recommendations s = true -> (o = Throws \/ o = NoToolCall) ->
     exists r, evaluationResult (apply_update s (evaluatePolicyRecommendations s o)) = Some r /\
               isComplete r = true /\ score r = (1 # 2)%Q /\
               decideRegenerate (apply_update s (evaluatePolicyRecommendations s o)) = Some End_).
Proof.
  split.
  - intros s src actual o [-> | ->]; split; reflexivity.
  - intros s o Hrec Ho. unfold evaluatePolicyRecommendations. rewrite Hrec. cbn.
    destruct Ho as [-> | ->]; eexists; repeat split.
Qed.

Lemma relevance_fail_closed_evaluation_fail_open_witness :
  isRelevant (apply_update initial_state (checkRelevance "S" "C" Throws)) = false /\
  exists r, evaluationResult
      (apply_update (mkState true (Some (mkBoundaryItem "x" "y" "z" ["r"])) 1 None [] "C" "S")
         (evaluatePolicyRecommendations
            (mkState true (Some (mkBoundaryItem "x" "y" "z" ["r"])) 1 None [] "C" "S") Throws))
      = Some r /\ isComplete r = true.
Proof.
  split.
  - apply (proj1 relevance_fail_closed_evaluation_fail_open). now left.
  - destruct (proj2 relevance_fail_closed_evaluation_fail_open
                (mkState true (Some (mkBoundaryItem "x" "y" "z" ["r"])) 1 None [] "C" "S")
                Throws eq_refl (or_introl eq_refl)) as (r & E & C & _).
    exists r. split; assumption.
Defined.




End SortAgentFacts.

Module MergeFacts.
Import Merge.
Local Open Scope list_scope.
Section Props.
Context {A : Type}.

Lemma split_from_concat size (l : list A) :
  0 < size -> forall fuel i, length l - i <= fuel ->
  concat (split_from size l fuel i) = skipn i l.
Proof.
  intros Hs fuel. induction fuel as [|f IH]; intros i Hf; cbn [split_from].
  - rewrite skipn_all2; [reflexivity|lia].
  - destruct (Nat.ltb_spec i (length l)) as [Hi|Hi].
    + cbn [concat]. rewrite IH by lia. unfold slice. replace (i + size - i) with size by lia.
      rewrite <- (firstn_skipn size (skipn i l)) at 2. rewrite skipn_skipn.
      do 2 f_equal. lia.
    + rewrite skipn_all2; [reflexivity|lia].
Qed.

Lemma split_from_nonempty size (l : list A) fuel i :
  split_from size l fuel i <> [] -> i < length l.
Proof.
  destruct fuel; cbn [split_from]; [congruence|].
  destruct (Nat.ltb_spec i (length l)); [lia|congruence].
Qed.

Lemma slice_length (l : list A) i size :
  length (slice l i (i + size)) = Nat.min size (length l - i).
Proof.
  unfold slice. rewrite length_firstn, length_skipn. now replace (i + size - i) with size by lia.
Qed.

Lemma split_from_shape size (l : list A) :
  0 < size -> forall fuel i,
  Forall (fun b => length b = size) (removelast (split_from size l fuel i)) /\
  Forall (fun b => 0 < length b <= size) (split_from size l fuel i).
Proof.
  intros Hs fuel. induction fuel as [|f IH]; intros i; cbn [split_from]; [split; constructor|].
  destruct (Nat.ltb_spec i (length l)) as [Hi|Hi]; [|split; constructor].
  destruct (IH (i + size)) as [IH1 IH2].
  pose proof (slice_length l i size) as Hlen.
  pose proof (Nat.min_spec size (length l - i)) as Hmin.
  split.
  - destruct (split_from size l f (i + size)) as [|b rest] eqn:Er; cbn; [constructor|].
    constructor; [|exact IH1].
    assert (i + size < length l) by (apply (split_from_nonempty size l f); congruence).
    lia.
  - constructor; [lia|exact IH2].
Qed.

Lemma merge_batches_infix (call : nat -> MergeReply A) :
  forall (bs : list (list A)) k i b, nth_error bs i = Some b -> call (k + i) = MRejects ->
  exists pre post, merge_batches call k bs = pre ++ b ++ post.
Proof.
  induction bs as [|b0 bs IH]; intros k i b Hi Hc; [destruct i; discriminate|].
  destruct i as [|i]; cbn in Hi.
  - injection Hi as <-. rewrite Nat.add_0_r in Hc. cbn. rewrite Hc.
    now exists [], (merge_batches call (S k) bs).
  - destruct (IH (S k) i b Hi) as (pre & post & E).
    + now replace (S k + i) with (k + S i) by lia.
    + cbn. rewrite E. exists (merge_batch (call k) b0 ++ pre), post.
      now rewrite app_assoc.
Qed.

Lemma merge_batches_all_reject (call : nat -> MergeReply A) :
  (forall i, call i = MRejects) ->
  forall (bs : list (list A)) k, merge_batches call k bs = concat bs.
Proof.
  intros Hc bs. induction bs as [|b bs IH]; intros k; cbn; [reflexivity|].
  now rewrite Hc, IH.
Qed.

(** C5. A merge call that rejects (after its retries) never drops data:
    without batching the whole input comes back as the unmerged list; in
    batch mode the items of each rejected batch appear, in order and
    contiguously, in the result; if every batch call rejects the result is
    the input list itself. *)
Theorem merge_failure_keeps_items :
  (forall (single : MergeReply A) call (data : list A),
     length data <= 15 -> single = MRejects ->
     mergeBoundaryData single call data = [CString (PArray data)]) /\
  (forall (single : MergeReply A) call (data : list A) i b,
     15 < length data -> nth_error (split_batches batchSize data) i = Some b ->
     call i = MRejects ->
     exists pre post, mergeBoundaryData single call data = [CString (PArray (pre ++ b ++ post))]) /\
  (forall (single : MergeReply A) call (data : list A),
     15 < length data -> (forall i, call i = MRejects) ->
     mergeBoundaryData single call data = [CString (PArray data)]).
Proof.
  split; [|split].
  - intros single call data Hl ->. unfold mergeBoundaryData.
    destruct (Nat.ltb_spec 15 (length data)); [lia|reflexivity].
  - intros single call data i b Hl Hi Hc. unfold mergeBoundaryData.
    destruct (Nat.ltb_spec 15 (length data)); [|lia].
    destruct (merge_batches_infix call _ 0 i b Hi Hc) as (pre & post & E).
    exists pre, post. unfold mergeInBatches. now rewrite E.
  - intros single call data Hl Hc. unfold mergeBoundaryData.
    destruct (Nat.ltb_spec 15 (length data)); [|lia].
    unfold mergeInBatches. rewrite merge_batches_all_reject by exact Hc.
    unfold split_batches. rewrite split_from_concat by (unfold batchSize; lia).
    reflexivity.
Qed.

(** C6. Batch mode (batches of 10) is used exactly when there are more
    than 15 items; the batches concatenate back to the input, every batch
    but the last has exactly the batch size, every batch is non-empty and
    at most the batch size, and 20 items give two batches of 10. *)
Theorem batch_split_large_mode :
  (forall (single : MergeReply A) call (data : list A), 15 < length data ->
     mergeBoundaryData single call data
     = [CString (PArray (merge_batches call 0 (split_batches batchSize data)))]) /\
  (forall (single : MergeReply A) call (data : list A), length data <= 15 ->
     mergeBoundaryData single call data
     = match single with MRejects => [CString (PArray data)] | MResolves m => m end) /\
  (forall size (l : list A), 0 < size ->
     concat (split_batches size l) = l /\
     Forall (fun b => length b = size) (removelast (split_batches size l)) /\
     Forall (fun b => 0 < length b <= size) (split_batches size l)) /\
  (forall l : list A, length l = 20 -> map (@length A) (split_batches batchSize l) = [10; 10]).
Proof.
  split; [|split; [|split]].
  - intros single call data Hl. unfold mergeBoundaryData.
    destruct (Nat.ltb_spec 15 (length data)); [reflexivity|lia].
  - intros single call data Hl. unfold mergeBoundaryData.
    destruct (Nat.ltb_spec 15 (length data)); [lia|reflexivity].
  - intros size l Hs. unfold split_batches.
    destruct (split_from_shape size l Hs (length l) 0) as [H1 H2].
    split; [|split; assumption].
    rewrite split_from_concat by (auto || lia). reflexivity.
  - intros l H.
    do 20 (destruct l as [|? l]; [discriminate|]).
    destruct l; [reflexivity|discriminate].
Qed.

End Props.

Lemma merge_failure_keeps_items_witness :
  mergeBoundaryData (@MRejects nat) (fun _ => MRejects) [1; 2; 3]
  = [CString (PArray [1; 2; 3])] /\
  exists pre post,
    mergeBoundaryData (@MRejects nat)
      (fun i => if Nat.eqb i 1 then MRejects else MResolves [CString (PArray [0])])
      (seq 0 20) = [CString (PArray (pre ++ seq 10 10 ++ post))].
Proof.
  split.
  - apply (proj1 (@merge_failure_keeps_items nat)); [cbn; lia|reflexivity].
  - apply (proj1 (proj2 (@merge_failure_keeps_items nat)) MRejects _ (seq 0 20) 1);
      [cbn; lia|reflexivity|reflexivity].
Defined.

Lemma batch_split_large_mode_witness :
  map (@length nat) (split_batches batchSize (seq 0 20)) = [10; 10] /\
  concat (split_batches 10 (seq 0 23)) = seq 0 23.
Proof.
  split.
  - apply (proj2 (proj2 (proj2 (@batch_split_large_mode nat)))). reflexivity.
  - refine (proj1 (proj1 (proj2 (proj2 (@batch_split_large_mode nat))) 10 (seq 0 23) _)).
    lia.
Defined.

End MergeFacts.

Module ExtractFacts.
Import Extract.

Lemma extractArticleInfo_resolves article o :
  exists r, extractArticleInfo article o = Resolved r.
Proof. destruct o as [|[[|d ds]|]]; eexists; reflexivity. Qed.

Lemma process_article_calls outcome article :
  snd (process_article outcome article)
  = if has_internal_server_error article then 0 else 1.
Proof.
  unfold process_article. destruct (has_internal_server_error article); [reflexivity|].
  destruct (extractArticleInfo_resolves article (outcome 0)) as [r E].
  cbn. rewrite E. reflexivity.
Qed.

Lemma process_batches_calls outcomes :
  forall bs k, map snd (process_batches outcomes k bs)
  = map (fun a => if has_internal_server_error a then 0 else 1) (concat bs).
Proof.
  induction bs as [|b bs IH]; intros k; [reflexivity|].
  cbn. rewrite !map_app, IH. f_equal.
  revert k. induction b as [|a b IHb]; intros k; [reflexivity|].
  cbn. rewrite process_article_calls. f_equal. apply IHb.
Qed.

Lemma batch_runs_calls outcomes articles :
  map snd (batch_runs outcomes articles)
  = map (fun a => if has_internal_server_error a then 0 else 1) articles.
Proof.
  unfold batch_runs. rewrite process_batches_calls. unfold Merge.split_batches.
  rewrite MergeFacts.split_from_concat; [reflexivity|unfold PROCESSING_BATCH_SIZE; lia|lia].
Qed.

(** C9 (amended). [extractArticleInfo] resolves with an article on every
    path (its catch branch included) and never rejects. Hence the catch
    branch of the retry loop in [batchExtractArticles] is dead: an article
    that is not skipped for the internal-server-error marker gets exactly
    one [extractArticleInfo] call and its result; a skipped article gets
    none. *)
Theorem extractArticleInfo_total_single_call :
  (forall article o, exists r, extractArticleInfo article o = Resolved r) /\
  (forall outcome article, has_internal_server_error article = false ->
     exists r, extractArticleInfo article (outcome 0) = Resolved r /\
               process_article outcome article = (r, 1)) /\
  (forall outcome article, has_internal_server_error article = true ->
     snd (process_article outcome article) = 0) /\
  (forall outcomes articles,
     map snd (batch_runs outcomes articles)
     = map (fun a => if has_internal_server_error a then 0 else 1) articles).
Proof.
  split; [exact extractArticleInfo_resolves|split; [|split]].
  - intros outcome article H.
    destruct (extractArticleInfo_resolves article (outcome 0)) as [r E].
    exists r. split; [exact E|]. unfold process_article. rewrite H. cbn. now rewrite E.
  - intros outcome article H. rewrite process_article_calls, H. reflexivity.
  - exact batch_runs_calls.
Qed.

Lemma extractArticleInfo_total_single_call_witness :
  exists r,
    extractArticleInfo
      (mkArticle (Some "T") None None None None None (Some [SRString "text"]) "" "" [])
      IRejects = Resolved r /\
    process_article (fun _ => IRejects)
      (mkArticle (Some "T") None None None None None (Some [SRString "text"]) "" "" [])
    = (r, 1).
Proof.
  apply (proj1 (proj2 extractArticleInfo_total_single_call) (fun _ => IRejects)
    (mkArticle (Some "T") None None None None None (Some [SRString "text"]) "" "" [])).
  reflexivity.
Defined.

(** C9 counterexample: an article whose search results carry the
    internal-server-error marker is skipped, so [extractArticleInfo] is
    called zero times for it, not once. *)
Lemma server_error_article_not_extracted :
  map snd (batch_runs (fun _ _ => IRejects)
    [mkArticle (Some "T") None None None None None
       (Some [SRString ("Internal Server Error" ++ String (ascii_of_nat 10)
                        " Please fix your mistakes.")]) "" "" []]) = [0].
Proof. vm_compute. reflexivity. Qed.

(** C7 (code_bug). When the remote extraction graph rejects on every call,
    [extractArticleInfo] is called once per article and its catch branch
    yields the sentinel ["Error during processing"]; the retry loop never
    retries and its ["Error during extraction"] sentinel is never produced.
    The remaining articles are still processed. *)
Lemma always_rejecting_extract_single_processing_sentinel :
  batch_runs (fun _ _ => IRejects)
    [mkArticle (Some "T1") None None None None None (Some [SRString "a"]) "" "" [];
     mkArticle (Some "T2") None None None None None (Some [SRString "b"]) "" "" []]
  = [(mkArticle (Some "T1") None None None None None None
        "Error during processing" "Error during processing" [], 1);
     (mkArticle (Some "T2") None None None None None None
        "Error during processing" "Error during processing" [], 1)].
Proof. vm_compute. reflexivity. Qed.

End ExtractFacts.

Module SortWorkflowFacts.
Import SortWorkflow.

Section Bound.
Variables (n limit : nat).

(** Invariant of the admission loop: [activePromises] counts exactly the
    started tasks whose callback has not run yet, and never exceeds the
    limit. *)
Definition admission_inv (s : LoopState) : Prop :=
  activePromises s = in_flight s + settled s /\ activePromises s <= limit.

Lemma admission_inv_step s s' :
  loop_step n limit s s' -> admission_inv s -> admission_inv s'.
Proof.
  unfold admission_inv. intros H; destruct H; cbn; lia.
Qed.

Lemma admission_inv_rt s s' :
  clos_refl_trans _ (loop_step n limit) s s' -> admission_inv s -> admission_inv s'.
Proof.
  induction 1; eauto using admission_inv_step.
Qed.

End Bound.

Lemma ascii_toLowerCase_not_Y c : Ascii.eqb (ascii_toLowerCase c) "Y"%char = false.
Proof.
  destruct c as [[] [] [] [] [] [] [] []]; reflexivity.
Qed.

Lemma includes_Yes_toLowerCase s : includes "Yes" (toLowerCase s) = false.
Proof.
  induction s as [|c s IH]; [reflexivity|].
  cbn [toLowerCase includes]. rewrite IH, orb_false_r.
  cbn [String.prefix].
  destruct (ascii_dec "Y"%char (ascii_toLowerCase c)) as [E|E]; [|reflexivity].
  pose proof (ascii_toLowerCase_not_Y c) as F. rewrite <- E in F. discriminate.
Qed.

(** C8. In every reachable state of the admission loop of
    [runSortWorkflow], for any number of articles and any limit
    [maxConcurrent], the number of relevance checks started and not yet
    settled is at most the limit; [activePromises] is exactly the number of
    started checks whose callback has not run. *)
Theorem admission_in_flight_bounded :
  forall articles_length maxConcurrent s,
    loop_reachable articles_length maxConcurrent s ->
    in_flight s <= maxConcurrent /\
    activePromises s = in_flight s + settled s /\
    activePromises s <= maxConcurrent.
Proof.
  intros n limit s H.
  assert (I : admission_inv limit s).
  { apply (admission_inv_rt n limit loop_init s H). unfold admission_inv; cbn; lia. }
  unfold admission_inv in I. lia.
Qed.

Lemma admission_in_flight_bounded_witness :
  loop_reachable 20 3 (mkLoop 3 3 3 0 false) /\ in_flight (mkLoop 3 3 3 0 false) <= 3.
Proof.
  assert (R : loop_reachable 20 3 (mkLoop 3 3 3 0 false)).
  { unfold loop_reachable, loop_init.
    apply rt_trans with (mkLoop 1 1 1 0 false); [apply rt_step; constructor; lia|].
    apply rt_trans with (mkLoop 2 2 2 0 false); [apply rt_step; constructor; lia|].
    apply rt_step; constructor; lia. }
  split; [exact R|].
  exact (proj1 (admission_in_flight_bounded 20 3 (mkLoop 3 3 3 0 false) R)).
Defined.

(** C10. The message fallback of [checkArticleRelevance] tests
    [includes('Yes')] on a lowercased string, which contains no ['Y']: the
    test is false for every string, so a resolved reply without an
    [isRelevant] flag and with at least one message is always classified
    not relevant. *)
Theorem lowercase_fallback_never_relevant :
  (forall s, includes "Yes" (toLowerCase s) = false) /\
  (forall m ms, checkArticleRelevance (SResolves None (m :: ms)) = false).
Proof.
  split; [exact includes_Yes_toLowerCase|].
  intros m ms. cbn [checkArticleRelevance].
  destruct (last (m :: ms) m); [apply includes_Yes_toLowerCase|reflexivity].
Qed.

End SortWorkflowFacts.

Module MergeAgentFacts.
Import MergeAgent.

Lemma addSpatialTags_In items x :
  In x (addSpatialTags items) <->
  exists item t, In (item, ToolCall t) items /\ x = with_tag item t.
Proof.
  induction items as [|[item o] rest IH]; cbn.
  - split; [contradiction|]. intros (? & ? & [] & _).
  - destruct o as [| |t]; cbn; rewrite IH.
    + split; intros (i & t & H & E); [|destruct H as [H|H]; [discriminate|]];
        exists i, t; auto.
    + split; intros (i & t & H & E); [|destruct H as [H|H]; [discriminate|]];
        exists i, t; auto.
    + split.
      * intros [<-|(i & t' & H & E)]; [exists item, t; auto|exists i, t'; auto].
      * intros (i & t' & [H|H] & E); [injection H as <- <-; auto|right; exists i, t'; auto].
Qed.

Lemma addSpatialTags_length items :
  length (addSpatialTags items)
  = length (filter (fun p => match snd p with ToolCall _ => true | _ => false end) items).
Proof.
  induction items as [|[item [| |t]] rest IH]; cbn; congruence.
Qed.

(** C4 (code bug). The graph's output is one assistant message holding a
    flat JSON array, not an object of tag buckets: the array holds, in
    input order, exactly the merged records whose classification call
    returned a tool call, each with the tag the model returned; a record
    whose call throws or returns no tool call is in no bucket and nowhere
    in the output. *)
Theorem formatOutput_flat_tagged_list :
  forall items : list (BoundaryItem * Outcome TagArgs), exists l,
    formatOutput (addSpatialTags items) = [mkOutput "assistant" (JArray l)] /\
    (forall x, In x l <-> exists item t, In (item, ToolCall t) items /\ x = JRecord (with_tag item t)) /\
    length l = length (filter (fun p => match snd p with ToolCall _ => true | _ => false end) items).
Proof.
  intros items. exists (map JRecord (addSpatialTags items)). split; [reflexivity|split].
  - intros x. rewrite in_map_iff. split.
    + intros (y & <- & Hy). apply addSpatialTags_In in Hy as (item & t & H & ->). eauto.
    + intros (item & t & H & ->). exists (with_tag item t). split; [reflexivity|].
      apply addSpatialTags_In. eauto.
  - rewrite length_map. apply addSpatialTags_length.
Qed.

End MergeAgentFacts.

Module ExtractMoreFacts.
Import Extract.

(** The bibliographic fields every path of the extraction copies. *)
Definition same_biblio (a r : Article) : Prop :=
  articleTitle r = articleTitle a /\ doi r = doi a /\ authors r = authors a /\
  sourceTitle r = sourceTitle a /\ publicationYear r = publicationYear a.

Lemma extractArticleInfo_fields article o r :
  extractArticleInfo article o = Resolved r ->
  same_biblio article r /\ abstract r = None /\ searchResults r = None.
Proof.
  destruct o as [|[[|d ds]|]]; cbn; intros E; injection E as <-;
    unfold same_biblio; cbn; repeat split.
Qed.

Lemma process_article_result outcome article :
  has_internal_server_error article = false ->
  extractArticleInfo article (outcome 0) = Resolved (fst (process_article outcome article)).
Proof.
  intros H. destruct (ExtractFacts.extractArticleInfo_resolves article (outcome 0)) as [r E].
  unfold process_article. rewrite H. cbn. rewrite E. reflexivity.
Qed.

Lemma process_batches_Forall2 (P : Article -> Article -> Prop) outcomes :
  (forall outcome a, P a (fst (process_article outcome a))) ->
  forall bs k, Forall2 P (concat bs) (map fst (process_batches outcomes k bs)).
Proof.
  intros HP bs. induction bs as [|b bs IH]; intros k; [constructor|].
  cbn. rewrite map_app. apply Forall2_app; [|apply IH].
  revert k. induction b as [|a b IHb]; intros k; cbn; constructor; auto.
Qed.

Lemma batchExtractArticles_Forall2 (P : Article -> Article -> Prop) outcomes articles :
  (forall outcome a, P a (fst (process_article outcome a))) ->
  Forall2 P articles (batchExtractArticles outcomes articles).
Proof.
  intros HP. unfold batchExtractArticles, batch_runs, Merge.split_batches.
  assert (E : concat (Merge.split_from PROCESSING_BATCH_SIZE articles (length articles) 0)
              = articles).
  { rewrite MergeFacts.split_from_concat by (unfold PROCESSING_BATCH_SIZE; lia).
    reflexivity. }
  rewrite <- E at 1. now apply process_batches_Forall2.
Qed.

Lemma length_substring n m s :
  String.length (substring n m s) = Nat.min m (String.length s - n).
Proof.
  revert n m. induction s as [|c s IH]; intros [|n] [|m]; cbn; auto;
    rewrite IH; cbn; lia.
Qed.

Lemma substring_full s : substring 0 (String.length s) s = s.
Proof. induction s as [|c s IH]; cbn; congruence. Qed.

Lemma substring_split s n :
  (substring 0 n s ++ substring n (String.length s - n) s)%string = s.
Proof.
  revert n. induction s as [|c s IH]; intros [|n]; cbn; try reflexivity.
  - now rewrite substring_full.
  - now rewrite IH.
Qed.

Lemma process_article_biblio outcome a :
  same_biblio a (fst (process_article outcome a)).
Proof.
  destruct (has_internal_server_error a) eqn:H.
  - unfold process_article. rewrite H. unfold same_biblio; cbn; repeat split.
  - exact (proj1 (extractArticleInfo_fields a _ _ (process_article_result outcome a H))).
Qed.

Lemma process_article_shape outcome a :
  let r := fst (process_article outcome a) in
  if has_internal_server_error a
  then abstract r = abstract a /\ searchResults r = searchResults a /\
       spatialScope r = "Skipped due to server error" /\
       timeRange r = "Skipped due to server error" /\ subSections r = []
  else abstract r = None /\ searchResults r = None.
Proof.
  cbn zeta. destruct (has_internal_server_error a) eqn:H.
  - unfold process_article. rewrite H. cbn. repeat split.
  - exact (proj2 (extractArticleInfo_fields a _ _ (process_article_result outcome a H))).
Qed.

(** [batchExtractArticles] returns one article per input article, in
    input order, whatever the remote graph does; each output article keeps
    the title, DOI, authors, source title and publication year of the
    input article at the same position. *)
Theorem batchExtractArticles_keeps_order_and_biblio :
  forall outcomes articles,
    length (batchExtractArticles outcomes articles) = length articles /\
    Forall2 same_biblio articles (batchExtractArticles outcomes articles).
Proof.
  intros outcomes articles.
  assert (F : Forall2 same_biblio articles (batchExtractArticles outcomes articles))
    by (apply batchExtractArticles_Forall2, process_article_biblio).
  split; [symmetry; exact (Forall2_length F)|exact F].
Qed.

(** An article skipped for the internal-server-error marker comes back
    with its [Abstract] and [searchResults] and the "Skipped due to server
    error" status; every other article comes back without [Abstract] and
    without [searchResults], since [extractArticleInfo] builds a new object
    on all its paths. *)
Theorem batchExtractArticles_output_shape :
  forall outcomes articles,
    Forall2 (fun a r =>
      if has_internal_server_error a
      then abstract r = abstract a /\ searchResults r = searchResults a /\
           spatialScope r = "Skipped due to server error" /\
           timeRange r = "Skipped due to server error" /\ subSections r = []
      else abstract r = None /\ searchResults r = None)
      articles (batchExtractArticles outcomes articles).
Proof.
  intros outcomes articles. apply batchExtractArticles_Forall2.
  intros outcome a. exact (process_article_shape outcome a).
Qed.

(** [extractArticleInfo] returns an article with a non-empty [subSections]
    exactly when the remote graph resolved with a non-empty [output]; in
    that case [spatialScope] and [timeRange] come from the first output
    record ("Not specified" when the field is neither a string nor an
    object), and a missing or empty [subSections] is replaced by the single
    "No Policy Sections Found" subsection. On the other paths
    [subSections] is empty. *)
Theorem extractArticleInfo_subsections :
  forall article o r, extractArticleInfo article o = Resolved r ->
    (subSections r <> [] <-> exists d ds, o = IResolves (Some (d :: ds))) /\
    (forall d ds, o = IResolves (Some (d :: ds)) ->
       spatialScope r = field_or_default (x_spatialScope d) /\
       timeRange r = field_or_default (x_timeRange d) /\
       (x_subSections d = None \/ x_subSections d = Some [] ->
        subSections r = [default_subsection])).
Proof.
  intros article o r E.
  destruct o as [|[[|d ds]|]]; cbn in E; injection E as <-; cbn.
  - split; [split; [intros []; reflexivity|intros (? & ? & ?); discriminate]|].
    intros ? ? ?; discriminate.
  - split; [split; [intros []; reflexivity|intros (? & ? & ?); discriminate]|].
    intros ? ? ?; discriminate.
  - split.
    + split; [intros _; eauto|intros _].
      destruct (x_subSections d) as [[|s l]|]; discriminate.
    + intros d' ds' Eq. injection Eq as <- <-.
      split; [reflexivity|split; [reflexivity|]].
      intros [-> | ->]; reflexivity.
  - split; [split; [intros []; reflexivity|intros (? & ? & ?); discriminate]|].
    intros ? ? ?; discriminate.
Qed.

Lemma extractArticleInfo_subsections_witness :
  subSections (mkArticle (Some "T") None None None None None None
                 "China" "2000-2020" [default_subsection]) <> [] /\
  spatialScope (mkArticle (Some "T") None None None None None None
                 "China" "2000-2020" [default_subsection]) = "China".
Proof.
  pose proof (extractArticleInfo_subsections
    (mkArticle (Some "T") None None None None None (Some [SRString "x"]) "" "" [])
    (IResolves (Some [mkExtracted (JStr "China") (JStr "2000-2020") (Some [])]))
    (mkArticle (Some "T") None None None None None None
       "China" "2000-2020" [default_subsection]) eq_refl) as [H1 H2].
  split.
  - apply H1. eexists _, _. reflexivity.
  - exact (proj1 (H2 _ _ eq_refl)).
Defined.

(** The two halves sent to the remote graph concatenate back to the full
    text, and the first half is as long as the second or one character
    longer. *)
Theorem split_halves_round_trip :
  forall fullText,
    (fst (split_halves fullText) ++ snd (split_halves fullText))%string = fullText /\
    String.length (snd (split_halves fullText)) <= String.length (fst (split_halves fullText))
      <= S (String.length (snd (split_halves fullText))).
Proof.
  intros s. unfold split_halves. cbn [fst snd].
  split; [apply substring_split|].
  rewrite !length_substring.
  pose proof (Nat.div_mod_eq (String.length s + 1) 2) as D.
  pose proof (Nat.mod_upper_bound (String.length s + 1) 2) as M.
  lia.
Qed.

End ExtractMoreFacts.

Module MfaSearchFacts.
Import Merge MfaSearch.
Local Open Scope list_scope.

Lemma searchCount_11 {A} (search : string -> SearchOutcome A) q :
  length (map search (createJournalQueries q)) = 11.
Proof. unfold createJournalQueries. rewrite !length_map. reflexivity. Qed.

(** When no successful search yields an [extract_boundary] tool call with
    arguments (for instance when every search fails) and the raw data file
    is written, [searchExpandAndMerge] returns the no-data result with
    [searchCount] 11, whatever the merge agent would answer: the merge
    agent is not called. *)
Theorem searchExpandAndMerge_no_data :
  forall {A} truthy fs (search : string -> SearchOutcome A) single call q,
    boundary_write_ok fs = true ->
    collectBoundaryData (map search (createJournalQueries q)) = [] ->
    searchExpandAndMerge truthy fs search single call q
    = SEMNoData 11 (successfulSearches (map search (createJournalQueries q))).
Proof.
  intros A truthy fs search single call q Hw H. unfold searchExpandAndMerge. cbv zeta.
  rewrite Hw, H, searchCount_11. reflexivity.
Qed.

Lemma searchExpandAndMerge_no_data_witness :
  searchExpandAndMerge (A := nat) (fun _ => true) (mkFs true false) (fun _ => SearchFailed)
    MRejects (fun _ => MRejects) "MFA"
  = SEMNoData 11 0.
Proof.
  exact (searchExpandAndMerge_no_data (A := nat) (fun _ => true) (mkFs true false)
           (fun _ => SearchFailed) MRejects (fun _ => MRejects) "MFA" eq_refl eq_refl).
Defined.

(** With more than 15 collected items (batch mode) the merge step itself
    never fails: the merged message is one string holding the merged
    batches and [parsedResults] is that array; the run ends in the error
    result only when a file write fails. *)
Theorem searchExpandAndMerge_batch_mode_parses :
  forall {A} truthy fs (search : string -> SearchOutcome A) single call q,
    boundary_write_ok fs = true ->
    let data := collectBoundaryData (map search (createJournalQueries q)) in
    15 < length data ->
    let merged := merge_batches call 0 (split_batches batchSize data) in
    searchExpandAndMerge truthy fs search single call q
    = if merged_write_ok fs then
        SEMMerged 11 (successfulSearches (map search (createJournalQueries q)))
                  (length data) [CString (PArray merged)] (Some (PArray merged))
      else SEMError.
Proof.
  intros A truthy fs search single call q Hw data H merged. subst merged.
  unfold searchExpandAndMerge. cbv zeta. rewrite Hw. cbn [negb].
  fold data. rewrite searchCount_11. clearbody data.
  destruct data as [|x xs]; [cbn in H; lia|].
  unfold mergeBoundaryData.
  destruct (Nat.ltb_spec 15 (length (x :: xs))) as [_|C]; [|lia].
  reflexivity.
Qed.

Definition two_items_search (q : string) : SearchOutcome nat :=
  SearchOk (Some (Some [mkSearchMsg (Some [mkToolCall "extract_boundary" (Some 1);
                                           mkToolCall "extract_boundary" (Some 2)])])).

Lemma searchExpandAndMerge_batch_mode_parses_witness :
  exists merged,
    searchExpandAndMerge (fun _ => true) (mkFs true true) two_items_search MRejects
      (fun _ => MRejects) "MFA"
    = SEMMerged 11 11 22 [CString (PArray merged)] (Some (PArray merged)).
Proof.
  eexists.
  exact (searchExpandAndMerge_batch_mode_parses (fun _ => true) (mkFs true true)
           two_items_search MRejects (fun _ => MRejects) "MFA" eq_refl
           ltac:(apply Nat.ltb_lt; vm_compute; reflexivity)).
Defined.




End MfaSearchFacts.

Module SortGroupingFacts.
Import SortWorkflow SortGrouping.
Local Open Scope list_scope.

(** The reply explicitly carries [isRelevant = true]. *)
Definition explicitly_relevant (r : SortReply) : bool :=
  match r with SResolves (Some true) _ => true | _ => false end.

Lemma checkArticleRelevance_explicit r :
  checkArticleRelevance r = explicitly_relevant r.
Proof.
  destruct r as [|[[]|] [|m ms]]; try reflexivity.
  cbn [checkArticleRelevance].
  destruct (last (m :: ms) m); [apply SortWorkflowFacts.includes_Yes_toLowerCase|reflexivity].
Qed.

(** [runSortWorkflow] splits the checked articles into the relevant and
    the irrelevant file without loss: both lists keep input order, their
    lengths add up to the number of articles, and an article is written
    to the relevant file, annotated with [isRelevant: true], exactly when
    the sort agent's reply explicitly carried [isRelevant = true]; every
    other article (rejected call, missing flag, [false]) goes to the
    irrelevant file annotated with [isRelevant: false]. *)
Theorem sort_groups_partition :
  forall checked : list (SortArticle * SortReply),
    let results := relevanceResults checked in
    length (relevantArticles results) + length (irrelevantArticles results) = length checked /\
    relevantArticles results
    = map (fun p => annotate (fst p) true) (filter (fun p => explicitly_relevant (snd p)) checked) /\
    irrelevantArticles results
    = map (fun p => annotate (fst p) false)
          (filter (fun p => negb (explicitly_relevant (snd p))) checked).
Proof.
  intros checked results. subst results.
  induction checked as [|[a r] checked IH]; [split; [|split]; reflexivity|].
  destruct IH as (IH1 & IH2 & IH3).
  unfold relevantArticles, irrelevantArticles, relevanceResults in *. cbn.
  rewrite checkArticleRelevance_explicit.
  destruct (explicitly_relevant r); cbn; (split; [cbn in IH1; lia|]);
    rewrite ?IH2, ?IH3; split; reflexivity.
Qed.

End SortGroupingFacts.

Module JudgeAgentFacts.
Import SortWorkflow JudgeAgent.

Fixpoint all_space (w : string) : bool :=
  match w with
  | EmptyString => true
  | String c w' => is_js_space c && all_space w'
  end.

Fixpoint no_space (p : string) : bool :=
  match p with
  | EmptyString => true
  | String c p' => negb (is_js_space c) && no_space p'
  end.

Lemma lower_space c : is_js_space c = true -> ascii_toLowerCase c = c.
Proof.
  assert (B : implb (is_js_space c) (Ascii.eqb (ascii_toLowerCase c) c) = true)
    by (destruct c as [[] [] [] [] [] [] [] []]; reflexivity).
  intros H. rewrite H in B. cbn in B. now apply Ascii.eqb_eq.
Qed.

Lemma toLowerCase_app x y :
  toLowerCase (x ++ y) = (toLowerCase x ++ toLowerCase y)%string.
Proof. induction x as [|c x IH]; cbn; congruence. Qed.

Lemma space_neq a d : is_js_space a = false -> is_js_space d = true -> a <> d.
Proof. intros Ha Hd ->. congruence. Qed.

Lemma prefix_space_head p d rest :
  p <> EmptyString -> no_space p = true -> is_js_space d = true ->
  String.prefix p (String (ascii_toLowerCase d) rest) = false.
Proof.
  intros Hp Hn Hd. destruct p as [|a p]; [congruence|].
  cbn in Hn |- *. apply andb_true_iff in Hn as [Ha _]. apply negb_true_iff in Ha.
  rewrite (lower_space d Hd).
  destruct (ascii_dec a d) as [E|E]; [|reflexivity].
  exfalso. exact (space_neq a d Ha Hd E).
Qed.

Lemma includes_space_prefix p w t :
  p <> EmptyString -> no_space p = true -> all_space w = true ->
  includes p (toLowerCase (w ++ t)) = includes p (toLowerCase t).
Proof.
  intros Hp Hn. induction w as [|d w IH]; intros Hw; [reflexivity|].
  cbn in Hw. apply andb_true_iff in Hw as [Hd Hw].
  cbn [append toLowerCase includes]. rewrite IH by exact Hw.
  now rewrite prefix_space_head.
Qed.

Lemma prefix_space_suffix p t w :
  no_space p = true -> all_space w = true ->
  String.prefix p (toLowerCase (t ++ w)) = String.prefix p (toLowerCase t).
Proof.
  revert t. induction p as [|a p IH]; intros t Hn Hw; [destruct (toLowerCase (t ++ w)), (toLowerCase t); reflexivity|].
  destruct t as [|c t].
  - cbn [append]. destruct w as [|d w]; [reflexivity|].
    cbn in Hw. apply andb_true_iff in Hw as [Hd _].
    cbn [toLowerCase]. apply prefix_space_head; [discriminate|exact Hn|exact Hd].
  - cbn in Hn. apply andb_true_iff in Hn as [_ Hn].
    cbn [append toLowerCase String.prefix].
    destruct (ascii_dec a (ascii_toLowerCase c)); [apply IH; assumption|reflexivity].
Qed.

Lemma append_empty s : (s ++ "")%string = s.
Proof. induction s as [|c s IH]; cbn; congruence. Qed.

Lemma includes_all_space p w :
  p <> EmptyString -> no_space p = true -> all_space w = true ->
  includes p (toLowerCase w) = false.
Proof.
  intros Hp Hn Hw.
  pose proof (includes_space_prefix p w EmptyString Hp Hn Hw) as E.
  rewrite append_empty in E. rewrite E. destruct p; [congruence|reflexivity].
Qed.
Lemma includes_space_suffix p t w :
  p <> EmptyString -> no_space p = true -> all_space w = true ->
  includes p (toLowerCase (t ++ w)) = includes p (toLowerCase t).
Proof.
  intros Hp Hn Hw. induction t as [|c t IH].
  - cbn [append]. rewrite includes_all_space by assumption.
    destruct p; [congruence|reflexivity].
  - pose proof (prefix_space_suffix p (String c t) w Hn Hw) as P.
    cbn [append toLowerCase] in P |- *. cbn [includes]. rewrite P, IH. reflexivity.
Qed.

Lemma trimStart_split s : exists w, all_space w = true /\ s = (w ++ trimStart s)%string.
Proof.
  induction s as [|c s (w & Hw & E)]; [exists ""%string; split; reflexivity|].
  cbn. destruct (is_js_space c) eqn:Hc.
  - exists (String c w). cbn. rewrite Hc, Hw. split; [reflexivity|congruence].
  - exists ""%string. split; reflexivity.
Qed.

Lemma trimEnd_split s : exists w, all_space w = true /\ s = (trimEnd s ++ w)%string.
Proof.
  induction s as [|c s (w & Hw & E)]; [exists ""%string; split; reflexivity|].
  cbn. destruct (trimEnd s) as [|d t] eqn:Et.
  - cbn in E. subst s. destruct (is_js_space c) eqn:Hc.
    + exists (String c w). cbn. rewrite Hc, Hw. split; reflexivity.
    + exists w. split; [exact Hw|reflexivity].
  - exists w. split; [exact Hw|]. cbn. rewrite E at 1. reflexivity.
Qed.

Lemma includes_yes_trim s :
  includes "yes" (toLowerCase (trim s)) = includes "yes" (toLowerCase s).
Proof.
  destruct (trimStart_split s) as (w1 & H1 & E1).
  destruct (trimEnd_split (trimStart s)) as (w2 & H2 & E2).
  unfold trim.
  rewrite <- (includes_space_suffix "yes" (trimEnd (trimStart s)) w2), <- E2
    by (reflexivity || discriminate || exact H2).
  rewrite <- (includes_space_prefix "yes" w1 (trimStart s)), <- E1
    by (reflexivity || discriminate || exact H1).
  reflexivity.
Qed.

(** With the first graph of sort_agent.ts as the sort agent,
    [checkArticleRelevance] takes the judge's verdict: a text reply makes
    the article relevant exactly when the reply contains "yes" in any
    letter case (anywhere, as in "eyes"); a tool-call judgment does
    exactly when it is "yes" up to letter case (so "Yes." does not); a
    failing model call, or a tool call whose judgment is not a string,
    makes the graph reject and the article not relevant. *)
Theorem judge_relevance_via_checkArticleRelevance :
  (forall content, checkArticleRelevance (judge_graph_reply (JText content))
                   = includes "yes" (toLowerCase content)) /\
  (forall judgment, checkArticleRelevance (judge_graph_reply (JToolCall (Some judgment)))
                    = String.eqb (toLowerCase judgment) "yes") /\
  checkArticleRelevance (judge_graph_reply JThrows) = false /\
  checkArticleRelevance (judge_graph_reply (JToolCall None)) = false.
Proof.
  split; [|split; [|split]; reflexivity].
  intros content. unfold judge_graph_reply, judgeRelevance.
  rewrite includes_yes_trim.
  destruct (includes "yes" (toLowerCase content)); reflexivity.
Qed.

End JudgeAgentFacts.

Module ExtractAgentFacts.
Import Extract ExtractAgent.
Local Open Scope list_scope.

Lemma or_not_specified_nonempty s : or_not_specified s <> EmptyString.
Proof. destruct s; discriminate. Qed.

Lemma merge_nonempty bi pi :
  m_spatialScope (merge bi pi) <> EmptyString /\ m_timeRange (merge bi pi) <> EmptyString /\
  m_subSections (merge bi pi) = pi.
Proof.
  destruct bi as [[sc tr]|]; cbn;
    repeat split; try apply or_not_specified_nonempty; discriminate.
Qed.

Lemma extractBoundary_failed ob :
  match ob with ToolCall args => parse_boundary args = None | _ => True end ->
  fst (extractBoundary ob) = None.
Proof. destruct ob as [| |args]; cbn; [reflexivity|reflexivity|intros ->; reflexivity]. Qed.

Lemma extractPolicy_empty op :
  match op with
  | ToolCall args => parse_policy args = None \/ parse_policy args = Some []
  | _ => True
  end ->
  fst (extractPolicy op) = [].
Proof.
  destruct op as [| |args]; cbn; [reflexivity|reflexivity|].
  intros [-> | ->]; reflexivity.
Qed.

Lemma parse_subsections_invalid l : In None l -> parse_subsections l = None.
Proof.
  induction l as [|[x|] l IH]; cbn; [contradiction| |reflexivity].
  intros [H|H]; [discriminate|]. now rewrite IH.
Qed.

Lemma extract_graph_article article ob op :
  extractArticleInfo article (extract_graph_outcome ob op)
  = Resolved (with_status article
      (m_spatialScope (merge (fst (extractBoundary ob)) (fst (extractPolicy op))))
      (m_timeRange (merge (fst (extractBoundary ob)) (fst (extractPolicy op))))
      (match fst (extractPolicy op) with [] => [default_subsection] | l => l end)).
Proof.
  unfold extract_graph_outcome, run_extract_graph.
  destruct (extractBoundary ob) as [bi m1]. destruct (extractPolicy op) as [pi m2].
  cbn [fst snd output map extractArticleInfo to_extracted x_spatialScope x_timeRange
       x_subSections field_or_default].
  destruct (merge_nonempty bi pi) as (_ & _ & ->). destruct pi; reflexivity.
Qed.

(** An article extracted through the extraction graph (extractBoundary,
    extractPolicy, merge) always gets a non-empty [spatialScope], a
    non-empty [timeRange] and at least one subsection, whatever the two
    model calls return: when the boundary call fails, returns no tool call
    or fails validation both fields are "Not specified", and when the
    policy call fails, returns no tool call, fails validation or returns
    no subsection, the article gets the single "No Policy Sections Found"
    subsection. *)
Theorem extract_graph_article_complete :
  forall article ob op, exists r,
    extractArticleInfo article (extract_graph_outcome ob op) = Resolved r /\
    spatialScope r <> EmptyString /\ timeRange r <> EmptyString /\ subSections r <> [] /\
    (match ob with ToolCall args => parse_boundary args = None | _ => True end ->
     spatialScope r = "Not specified" /\ timeRange r = "Not specified") /\
    (match op with
     | ToolCall args => parse_policy args = None \/ parse_policy args = Some []
     | _ => True
     end -> subSections r = [default_subsection]).
Proof.
  intros article ob op. eexists. split; [apply extract_graph_article|].
  cbn [spatialScope timeRange subSections with_status].
  destruct (merge_nonempty (fst (extractBoundary ob)) (fst (extractPolicy op))) as (H1 & H2 & _).
  split; [exact H1|split; [exact H2|split]].
  - destruct (fst (extractPolicy op)); discriminate.
  - split.
    + intros Hb. rewrite (extractBoundary_failed ob Hb). split; reflexivity.
    + intros Hp. rewrite (extractPolicy_empty op Hp). reflexivity.
Qed.

(** Validation of the policy tool call is all or nothing: when one
    subsection of the call's [subSections] does not match the schema, all
    of them are dropped and the article gets only the "No Policy Sections
    Found" subsection. *)
Theorem one_invalid_subsection_drops_all :
  forall article ob (l : list (option SubSection)), In None l ->
    exists r, extractArticleInfo article (extract_graph_outcome ob (ToolCall (Some l)))
              = Resolved r /\ subSections r = [default_subsection].
Proof.
  intros article ob l H. eexists. split; [apply extract_graph_article|].
  cbn. rewrite parse_subsections_invalid by exact H. reflexivity.
Qed.

Lemma one_invalid_subsection_drops_all_witness :
  exists r,
    extractArticleInfo (mkArticle (Some "T") None None None None None None "" "" [])
      (extract_graph_outcome (ToolCall (Some "Beijing", Some "2010-2020"))
         (ToolCall (Some [Some (mkSubSection "Policy" "Text" ["Build less"]); None])))
    = Resolved r /\ subSections r = [default_subsection].
Proof.
  exact (one_invalid_subsection_drops_all
           (mkArticle (Some "T") None None None None None None "" "" [])
           (ToolCall (Some "Beijing", Some "2010-2020"))
           [Some (mkSubSection "Policy" "Text" ["Build less"]); None]
           ltac:(right; left; reflexivity)).
Defined.

Lemma extract_graph_article_complete_witness :
  exists r,
    extractArticleInfo (mkArticle (Some "T") None None None None None None "" "" [])
      (extract_graph_outcome Throws NoToolCall) = Resolved r /\
    spatialScope r = "Not specified" /\ subSections r = [default_subsection].
Proof.
  destruct (extract_graph_article_complete
              (mkArticle (Some "T") None None None None None None "" "" [])
              Throws NoToolCall) as (r & E & _ & _ & _ & Hb & Hp).
  exists r. split; [exact E|split; [exact (proj1 (Hb I))|exact (Hp I)]].
Defined.

End ExtractAgentFacts.

Module MergeBySourceFacts.
Import MergeAgent MergeBySource.
Local Open Scope list_scope.

(** The items of a source, in input order. *)
Definition with_source (k : string) (items : list BoundaryItem) : list BoundaryItem :=
  filter (fun x => String.eqb (source x) k) items.

Definition combine_group (o : option (list BoundaryItem)) (l : list BoundaryItem)
  : option (list BoundaryItem) :=
  match l with
  | [] => o
  | _ => Some (match o with Some v => v | None => [] end ++ l)
  end.

Lemma combine_group_app o l1 l2 :
  combine_group (combine_group o l1) l2 = combine_group o (l1 ++ l2).
Proof.
  destruct l1 as [|x l1]; [reflexivity|]. destruct l2 as [|y l2].
  - cbn. now rewrite app_nil_r.
  - cbn. now rewrite <- app_assoc.
Qed.

Lemma lookup_push k k' x g :
  lookup_group k (push_group k' x g)
  = if String.eqb k k' then option_map (fun v => v ++ [x]) (lookup_group k g)
    else lookup_group k g.
Proof.
  unfold push_group. induction g as [|[k0 v] g IH]; cbn.
  - destruct (String.eqb k k'); reflexivity.
  - repeat match goal with
           | |- context [String.eqb ?a ?b] => destruct (String.eqb_spec a b)
           end; subst; cbn; try congruence;
      repeat match goal with
             | |- context [String.eqb ?a ?b] => destruct (String.eqb_spec a b)
             end; subst; try congruence.
Qed.

Lemma lookup_app k g k' v :
  lookup_group k (g ++ [(k', v)])
  = match lookup_group k g with Some w => Some w | None => if String.eqb k k' then Some v else None end.
Proof.
  induction g as [|[k0 w] g IH]; cbn; [destruct (String.eqb k k'); reflexivity|].
  destruct (String.eqb k k0); [reflexivity|exact IH].
Qed.

Lemma group_step_lookup g it g' :
  group_step g it = Some g' -> forall k,
  lookup_group k g' = combine_group (lookup_group k g)
                        (if String.eqb (source it) k then [it] else []).
Proof.
  unfold group_step. intros E k.
  destruct (lookup_group (source it) g) as [w|] eqn:L.
  - injection E as <-. rewrite lookup_push.
    destruct (String.eqb_spec k (source it)) as [->|N].
    + rewrite String.eqb_refl, L. reflexivity.
    + destruct (String.eqb_spec (source it) k) as [E'|_]; [congruence|reflexivity].
  - destruct (inherited_key (source it)); [discriminate|]. injection E as <-.
    rewrite lookup_app.
    destruct (String.eqb_spec k (source it)) as [->|N].
    + rewrite String.eqb_refl, L. reflexivity.
    + destruct (String.eqb_spec (source it) k) as [E'|_]; [congruence|].
      destruct (lookup_group k g); reflexivity.
Qed.

Lemma groupBySource_lookup items :
  forall g g', groupBySource g items = Some g' -> forall k,
  lookup_group k g' = combine_group (lookup_group k g) (with_source k items).
Proof.
  induction items as [|it items IH]; intros g g' E k; cbn in E.
  - injection E as <-. reflexivity.
  - destruct (group_step g it) as [g1|] eqn:S; [|discriminate].
    rewrite (IH g1 g' E k), (group_step_lookup g it g1 S k), combine_group_app.
    cbn. destruct (String.eqb (source it) k); reflexivity.
Qed.

Lemma lookup_Some_In k g v : lookup_group k g = Some v -> In (k, v) g.
Proof.
  induction g as [|[k0 w] g IH]; cbn; [discriminate|].
  destruct (String.eqb_spec k k0) as [->|_]; [intros E; injection E as <-; now left|].
  intros E. right. exact (IH E).
Qed.

Lemma lookup_None_notin k g : lookup_group k g = None -> ~ In k (map fst g).
Proof.
  induction g as [|[k0 w] g IH]; cbn; [auto|].
  destruct (String.eqb_spec k k0) as [->|N]; [discriminate|].
  intros E [H|H]; [congruence|exact (IH E H)].
Qed.

Lemma map_fst_push k x g : map fst (push_group k x g) = map fst g.
Proof.
  unfold push_group. rewrite map_map. apply map_ext.
  intros [k0 v]. cbn. destruct (String.eqb k k0); reflexivity.
Qed.

Lemma groupBySource_nodup items :
  forall g g', NoDup (map fst g) -> groupBySource g items = Some g' -> NoDup (map fst g').
Proof.
  induction items as [|it items IH]; intros g g' N E; cbn in E.
  - injection E as <-. exact N.
  - destruct (group_step g it) as [g1|] eqn:S; [|discriminate].
    apply (IH g1); [|exact E].
    unfold group_step in S. destruct (lookup_group (source it) g) eqn:L.
    + injection S as <-. now rewrite map_fst_push.
    + destruct (inherited_key (source it)); [discriminate|]. injection S as <-.
      rewrite map_app. cbn. apply NoDup_app; [exact N|constructor; [auto|constructor]|].
      intros a Ha [<-|[]]. exact (lookup_None_notin _ _ L Ha).
Qed.

Lemma In_keys_lookup k g : In k (map fst g) -> lookup_group k g <> None.
Proof.
  induction g as [|[k0 w] g IH]; cbn; [contradiction|].
  destruct (String.eqb_spec k k0) as [->|N]; [discriminate|].
  intros [H|H]; [congruence|exact (IH H)].
Qed.

Lemma In_insert p q l : In p (insert_by_index q l) <-> p = q \/ In p l.
Proof.
  induction l as [|r l IH]; cbn; [intuition congruence|].
  destruct (N.leb (index_of q) (index_of r)); cbn; [intuition congruence|].
  rewrite IH. intuition congruence.
Qed.

Lemma length_insert q l : length (insert_by_index q l) = S (length l).
Proof.
  induction l as [|r l IH]; cbn; [reflexivity|].
  destruct (N.leb (index_of q) (index_of r)); cbn; congruence.
Qed.

Lemma In_fold_insert p l : In p (fold_right insert_by_index [] l) <-> In p l.
Proof.
  induction l as [|q l IH]; cbn; [tauto|]. rewrite In_insert, IH. intuition congruence.
Qed.

Lemma length_fold_insert l : length (fold_right insert_by_index [] l) = length l.
Proof. induction l as [|q l IH]; cbn; [reflexivity|]. now rewrite length_insert, IH. Qed.

Lemma for_in_order_In p g : In p (for_in_order g) <-> In p g.
Proof.
  unfold for_in_order. rewrite in_app_iff, In_fold_insert, !filter_In.
  destruct (array_index (fst p)); intuition.
Qed.

Lemma for_in_order_length g : length (for_in_order g) = length g.
Proof.
  unfold for_in_order. rewrite length_app, length_fold_insert.
  induction g as [|q g IH]; cbn; [reflexivity|].
  destruct (array_index (fst q)); cbn; lia.
Qed.

Lemma merge_groups_length call gs out :
  merge_groups call gs = Some out -> length out <= length gs.
Proof.
  revert out. induction gs as [|[src items] gs IH]; intros out E; cbn in E.
  - injection E as <-. reflexivity.
  - destruct (merge_groups call gs) as [b|] eqn:R;
      [|destruct items as [|x [|y l]]; [destruct (call src []) | |destruct (call src (x :: y :: l))];
        discriminate].
    specialize (IH b eq_refl).
    destruct items as [|x [|y l]];
      [destruct (call src [])| |destruct (call src (x :: y :: l))];
      try discriminate; injection E as <-; cbn; lia.
Qed.

Lemma merge_groups_singleton call gs out k x :
  merge_groups call gs = Some out -> In (k, [x]) gs -> In x out.
Proof.
  revert out. induction gs as [|[src items] gs IH]; intros out E H; cbn in E, H;
    [contradiction|].
  destruct (merge_groups call gs) as [b|] eqn:R;
    [|destruct items as [|x0 [|y l]]; [destruct (call src []) | |destruct (call src (x0 :: y :: l))];
      discriminate].
  destruct H as [H|H].
  - injection H as -> ->. injection E as <-. now left.
  - destruct items as [|x0 [|y l]];
      [destruct (call src [])| |destruct (call src (x0 :: y :: l))];
      try discriminate; pose proof (IH b eq_refl H) as Hb; injection E as <-;
      cbn; rewrite ?in_app_iff; tauto.
Qed.


Lemma groupBySource_inherited items :
  forall g, (forall k, In k (map fst g) -> inherited_key k = false) ->
  forall it, In it items -> inherited_key (source it) = true ->
  groupBySource g items = None.
Proof.
  induction items as [|it0 items IH]; intros g Hg it Hin Hinh; [contradiction|].
  cbn. destruct Hin as [<-|Hin].
  - unfold group_step. destruct (lookup_group (source it0) g) as [v|] eqn:L.
    + exfalso. apply lookup_Some_In in L.
      assert (Hk : In (source it0) (map fst g)) by exact (in_map fst _ _ L).
      rewrite (Hg _ Hk) in Hinh. discriminate.
    + rewrite Hinh. reflexivity.
  - destruct (group_step g it0) as [g1|] eqn:S; [|reflexivity].
    refine (IH g1 _ it Hin Hinh).
    unfold group_step in S. destruct (lookup_group (source it0) g).
    + injection S as <-. rewrite map_fst_push. exact Hg.
    + destruct (inherited_key (source it0)) eqn:Hi; [discriminate|]. injection S as <-.
      intros k Hk. rewrite map_app, in_app_iff in Hk.
      destruct Hk as [Hk|[<-|[]]]; [exact (Hg k Hk)|exact Hi].
Qed.

Lemma mergeBySource_length call items out :
  mergeBySource call items = Some out ->
  length out <= length (nodup string_dec (map source items)).
Proof.
  intros H. unfold mergeBySource in H.
  destruct (groupBySource [] items) as [g|] eqn:G; [|discriminate].
  pose proof (groupBySource_lookup items [] g G) as L. cbn [lookup_group] in L.
  eapply Nat.le_trans; [exact (merge_groups_length _ _ _ H)|].
  rewrite for_in_order_length, <- (length_map fst g).
  apply NoDup_incl_length; [apply (groupBySource_nodup items [] g); [constructor|exact G]|].
  intros k Hk. apply nodup_In.
  pose proof (In_keys_lookup k g Hk) as Hn. rewrite L in Hn.
  unfold combine_group in Hn. destruct (with_source k items) as [|x xs] eqn:W; [congruence|].
  assert (Hx : In x (with_source k items)) by (rewrite W; left; reflexivity).
  unfold with_source in Hx. apply filter_In in Hx as [Hx Heq].
  apply String.eqb_eq in Heq. subst k. apply in_map. exact Hx.
Qed.

(** [mergeBySource] emits at most one record per distinct [source] of its
    input, and an item that is the only one with its source is emitted
    unchanged (a group of two or more items is replaced by the model's
    merged record, or dropped when the reply has no tool call). *)
Theorem mergeBySource_one_per_source :
  forall call items out, mergeBySource call items = Some out ->
    length out <= length (nodup string_dec (map source items)) /\
    (forall it, In it items -> with_source (source it) items = [it] -> In it out).
Proof.
  intros call items out H. unfold mergeBySource in H.
  destruct (groupBySource [] items) as [g|] eqn:G; [|discriminate].
  pose proof (groupBySource_lookup items [] g G) as L. cbn [lookup_group] in L.
  split.
  - apply (mergeBySource_length call items out). unfold mergeBySource. rewrite G. exact H.
  - intros it Hit Hs. pose proof (L (source it)) as Li. rewrite Hs in Li. cbn in Li.
    apply (merge_groups_singleton call (for_in_order g) out (source it) it H).
    apply for_in_order_In. apply lookup_Some_In. exact Li.
Qed.

Definition merge_witness_call (src : string) (items : list BoundaryItem) : Outcome BoundaryItem :=
  ToolCall (mkItem src "Beijing; Shanghai" None "2000-2020" []).

Lemma mergeBySource_one_per_source_witness :
  mergeBySource merge_witness_call
    [mkItem "A" "Beijing" None "2000-2010" []; mkItem "B" "Hebei" None "2015" [];
     mkItem "A" "Shanghai" None "2010-2020" []]
  = Some [mkItem "A" "Beijing; Shanghai" None "2000-2020" []; mkItem "B" "Hebei" None "2015" []] /\
  In (mkItem "B" "Hebei" None "2015" [])
     [mkItem "A" "Beijing; Shanghai" None "2000-2020" []; mkItem "B" "Hebei" None "2015" []].
Proof.
  assert (E : mergeBySource merge_witness_call
    [mkItem "A" "Beijing" None "2000-2010" []; mkItem "B" "Hebei" None "2015" [];
     mkItem "A" "Shanghai" None "2010-2020" []]
    = Some [mkItem "A" "Beijing; Shanghai" None "2000-2020" []; mkItem "B" "Hebei" None "2015" []])
    by (vm_compute; reflexivity).
  split; [exact E|].
  apply (proj2 (mergeBySource_one_per_source _ _ _ E)); [right; left; reflexivity|].
  vm_compute. reflexivity.
Defined.

(** An item whose [source] is the name of a property of
    [Object.prototype] ("constructor", "toString", "__proto__", ...) makes
    [mergeBySource] throw, whatever the other items and the model replies:
    [groupedBySource[source]] is already truthy and [.push] is not a
    function. *)
Theorem mergeBySource_inherited_source_throws :
  forall call items it, In it items -> inherited_key (source it) = true ->
    mergeBySource call items = None.
Proof.
  intros call items it Hin Hinh. unfold mergeBySource.
  rewrite (groupBySource_inherited items [] ltac:(cbn; contradiction) it Hin Hinh).
  reflexivity.
Qed.

Lemma mergeBySource_inherited_source_throws_witness :
  mergeBySource merge_witness_call
    [mkItem "Smith 2020" "Beijing" None "2000-2010" []; mkItem "constructor" "Hebei" None "2015" []]
  = None.
Proof.
  apply (mergeBySource_inherited_source_throws merge_witness_call _
           (mkItem "constructor" "Hebei" None "2015" [])); [right; left; reflexivity|].
  reflexivity.
Defined.

End MergeBySourceFacts.

Module BoundaryPipelineFacts.
Import MergeAgent MergeBySource BoundaryPipeline.
Local Open Scope list_scope.

Lemma keeps_location_spec a :
  keeps_location a = true <-> isInChina a = true /\ (6 # 10 < confidence a)%Q.
Proof.
  unfold keeps_location. rewrite andb_true_iff, negb_true_iff. split.
  - intros [H1 H2]. split; [exact H1|]. apply Qnot_le_lt. intros Hle.
    apply Qle_bool_iff in Hle. congruence.
  - intros [H1 H2]. split; [exact H1|]. destruct (Qle_bool (confidence a) (6 # 10)) eqn:Hq;
      [|reflexivity]. apply Qle_bool_iff in Hq. exfalso. exact (Qlt_not_le _ _ H2 Hq).
Qed.

Lemma filterNonChineseLocations_In items out :
  filterNonChineseLocations items = Some out ->
  forall x, In x out <->
    exists a, In (x, ToolCall a) items /\ isInChina a = true /\ (6 # 10 < confidence a)%Q.
Proof.
  revert out. induction items as [|[item o] rest IH]; intros out E x; cbn in E.
  - injection E as <-. split; [contradiction|]. intros (a & [] & _).
  - destruct o as [| |a]; [discriminate| |].
    + rewrite (IH out E x). split.
      * intros (a & H & H'). exists a. split; [right; exact H|exact H'].
      * intros (a & [H|H] & H'); [discriminate|]. exists a. split; [exact H|exact H'].
    + destruct (filterNonChineseLocations rest) as [f|] eqn:R; [|discriminate].
      injection E as <-. pose proof (IH f eq_refl x) as IHx.
      pose proof (keeps_location_spec a) as K.
      destruct (keeps_location a); cbn [In]; rewrite IHx; split.
      * intros [<-|(b & H & H')]; [exists a; split; [left; reflexivity|apply K; reflexivity]|].
        exists b. split; [right; exact H|exact H'].
      * intros (b & [H|H] & H'); [injection H as -> ->; left; reflexivity|].
        right. exists b. exact (conj H H').
      * intros (b & H & H'). exists b. split; [right; exact H|exact H'].
      * intros (b & [H|H] & H'); [|exists b; exact (conj H H')].
        injection H as -> ->. apply K in H'. discriminate.
Qed.

Lemma filterNonChineseLocations_incl items out :
  filterNonChineseLocations items = Some out -> incl out (map fst items).
Proof.
  intros E x Hx. apply (filterNonChineseLocations_In items out E x) in Hx as (a & H & _).
  exact (in_map fst _ _ H).
Qed.

Lemma addSpatialTags_length_le items : length (addSpatialTags items) <= length items.
Proof. induction items as [|[item [| |t]] rest IH]; cbn; lia. Qed.

Lemma length_nodup_incl (l1 l2 : list string) :
  incl l1 l2 -> length (nodup string_dec l1) <= length (nodup string_dec l2).
Proof.
  intros H. apply NoDup_incl_length; [apply NoDup_nodup|].
  intros x Hx. apply nodup_In. apply H. exact (proj1 (nodup_In _ _ _) Hx).
Qed.

(** [filterNonChineseLocations] throws exactly when one of its location
    calls throws, wherever that item is in the list. *)
Theorem filterNonChineseLocations_throws_iff :
  forall items, filterNonChineseLocations items = None <-> exists item, In (item, Throws) items.
Proof.
  induction items as [|[item o] rest IH]; cbn.
  - split; [discriminate|]. intros (? & []).
  - destruct o as [| |a].
    + split; [intros _; exists item; left; reflexivity|reflexivity].
    + rewrite IH. split; intros (i & H); [exists i; right; exact H|].
      destruct H as [H|H]; [discriminate|]. exists i. exact H.
    + destruct (filterNonChineseLocations rest) as [l|]; split.
      * discriminate.
      * intros (i & [H|H]); [discriminate|]. exfalso.
        assert (Hn : Some l = None) by (apply IH; exists i; exact H). discriminate.
      * intros _. destruct (proj1 IH eq_refl) as (i & H). exists i. right. exact H.
      * intros _. reflexivity.
Qed.

(** The items [filterNonChineseLocations] keeps are exactly those whose
    location call returned a tool call with [isInChina] true and a
    confidence strictly above 0.6; an item with confidence 0.6 or no tool
    call is dropped. *)
Theorem filterNonChineseLocations_kept :
  forall items out, filterNonChineseLocations items = Some out ->
    forall x, In x out <->
      exists a, In (x, ToolCall a) items /\ isInChina a = true /\ (6 # 10 < confidence a)%Q.
Proof. exact filterNonChineseLocations_In. Qed.

Definition pipeline_item (src scope : string) : BoundaryItem := mkItem src scope None "2010-2020" [].

Lemma filterNonChineseLocations_kept_witness :
  filterNonChineseLocations
    [(pipeline_item "A" "Beijing", ToolCall (mkLocation true (9 # 10)));
     (pipeline_item "B" "Tianjin", ToolCall (mkLocation true (6 # 10)));
     (pipeline_item "C" "Paris", ToolCall (mkLocation false (9 # 10)))]
  = Some [pipeline_item "A" "Beijing"] /\
  ~ In (pipeline_item "B" "Tianjin") [pipeline_item "A" "Beijing"].
Proof.
  assert (E : filterNonChineseLocations
    [(pipeline_item "A" "Beijing", ToolCall (mkLocation true (9 # 10)));
     (pipeline_item "B" "Tianjin", ToolCall (mkLocation true (6 # 10)));
     (pipeline_item "C" "Paris", ToolCall (mkLocation false (9 # 10)))]
    = Some [pipeline_item "A" "Beijing"]) by reflexivity.
  split; [exact E|].
  rewrite (filterNonChineseLocations_kept _ _ E). intros (a & H & _ & Hq).
  destruct H as [H|[H|[H|[]]]]; try discriminate.
  injection H as <-. cbn in Hq. apply (Qlt_irrefl _ Hq).
Defined.

(** Composition of the three nodes: the graph never outputs more tagged
    records than there are distinct [source] values among its boundary
    items, whatever the location, merge and classification replies. *)
Theorem boundary_pipeline_at_most_one_per_source :
  forall loc call tags items out, boundary_pipeline loc call tags items = Some out ->
    length out <= length (nodup string_dec (map source items)).
Proof.
  intros loc call tags items out E. unfold boundary_pipeline in E.
  destruct (filterNonChineseLocations (combine items loc)) as [f|] eqn:F; [|discriminate].
  destruct (mergeBySource call f) as [m|] eqn:M; [|discriminate].
  injection E as <-.
  eapply Nat.le_trans; [apply addSpatialTags_length_le|].
  rewrite length_combine.
  eapply Nat.le_trans; [apply Nat.le_min_l|].
  eapply Nat.le_trans; [exact (MergeBySourceFacts.mergeBySource_length call f m M)|].
  apply length_nodup_incl. intros s Hs. apply in_map_iff in Hs as (x & <- & Hx).
  apply in_map. apply (filterNonChineseLocations_incl _ _ F) in Hx.
  apply in_map_iff in Hx as ([y o] & <- & Hy). exact (in_combine_l _ _ _ _ Hy).
Qed.

Lemma boundary_pipeline_at_most_one_per_source_witness :
  boundary_pipeline
    [ToolCall (mkLocation true (9 # 10)); ToolCall (mkLocation true (8 # 10));
     ToolCall (mkLocation true (7 # 10))]
    (fun src _ => ToolCall (pipeline_item src "Beijing; Shanghai"))
    [ToolCall (Some "city"); ToolCall (Some "province")]
    [pipeline_item "A" "Beijing"; pipeline_item "B" "Hebei"; pipeline_item "A" "Shanghai"]
  = Some [mkItem "A" "Beijing; Shanghai" (Some "city") "2010-2020" [];
          mkItem "B" "Hebei" (Some "province") "2010-2020" []] /\
  length [mkItem "A" "Beijing; Shanghai" (Some "city") "2010-2020" [];
          mkItem "B" "Hebei" (Some "province") "2010-2020" []] <= 2.
Proof.
  assert (E : boundary_pipeline
    [ToolCall (mkLocation true (9 # 10)); ToolCall (mkLocation true (8 # 10));
     ToolCall (mkLocation true (7 # 10))]
    (fun src _ => ToolCall (pipeline_item src "Beijing; Shanghai"))
    [ToolCall (Some "city"); ToolCall (Some "province")]
    [pipeline_item "A" "Beijing"; pipeline_item "B" "Hebei"; pipeline_item "A" "Shanghai"]
    = Some [mkItem "A" "Beijing; Shanghai" (Some "city") "2010-2020" [];
            mkItem "B" "Hebei" (Some "province") "2010-2020" []])
    by (vm_compute; reflexivity).
  split; [exact E|].
  exact (boundary_pipeline_at_most_one_per_source _ _ _ _ _ E).
Defined.

End BoundaryPipelineFacts.
